(** * Directive parser of Marp for VS Code: a shallow embedding

    The development follows [src/directive-parser.ts].  The parser walks a
    Markdown document, reports the front-matter block and every HTML comment,
    and reports each YAML key/value pair found in them together with the
    directive definition the key resolves to.

    The libraries the parser calls (remark, rehype, yaml, the front-matter
    regular expression of [./utils], the VS Code document) are not part of the
    file: their results enter the model as data ([Unist], [Yaml]) produced by
    functions the parser is parameterised by. *)

From Stdlib Require Import String Ascii List ZArith Lia Bool.
Import ListNotations.

Local Open Scope string_scope.
Local Open Scope Z_scope.

(** ** JavaScript strings and the two regular-expression replacements *)

Module JS.

(** [s.length]. Characters are the code units of the text; offsets count them. *)
Definition length (s : string) : Z := Z.of_nat (String.length s).

Fixpoint drop (n : nat) (s : string) : string :=
  match n, s with
  | O, _ => s
  | S _, EmptyString => EmptyString
  | S n', String _ s' => drop n' s'
  end.

(** [s.slice(start)]: a negative [start] counts from the end. *)
Definition slice (s : string) (start : Z) : string :=
  let from := if start <? 0 then Z.max (length s + start) 0
              else Z.min start (length s) in
  drop (Z.to_nat from) s.

(** The character class [\s] of ECMAScript, on one-byte code units. *)
Definition isWhiteSpace (c : ascii) : bool :=
  let n := nat_of_ascii c in
  existsb (Nat.eqb n) [9; 10; 11; 12; 13; 32; 160]%nat.

Definition isDash (c : ascii) : bool := Ascii.eqb c "-"%char.

Fixpoint dropWhile (p : ascii -> bool) (s : string) : string :=
  match s with
  | EmptyString => EmptyString
  | String c s' => if p c then dropWhile p s' else s
  end.

Fixpoint all (p : ascii -> bool) (s : string) : bool :=
  match s with
  | EmptyString => true
  | String c s' => p c && all p s'
  end.

(** [s.replace(/^-*\s*/, '')]: the pattern is anchored at the start and both
    stars are greedy, so the match is the run of dashes at the start followed
    by the run of white space after it. *)
Definition replaceLeading (s : string) : string :=
  dropWhile isWhiteSpace (dropWhile isDash s).

(** Whether the whole of [s] is matched by [\s*-*]. *)
Definition matchesTrailing (s : string) : bool :=
  all isDash (dropWhile isWhiteSpace s).

(** [s.replace(/\s*-*$/, '')]: without the [m] flag [$] is the end of the
    input; the first match is the leftmost position from which the rest of the
    string is white space followed by dashes, and it is removed. *)
Fixpoint replaceTrailing (s : string) : string :=
  if matchesTrailing s then EmptyString
  else match s with
       | EmptyString => EmptyString
       | String c s' => String c (replaceTrailing s')
       end.

End JS.

(** ** Syntax trees of remark and rehype (unist) *)

Module Unist.

Record Point := mkPoint { offset : Z }.

Record Position := mkPosition { start : Point; end_ : Point }.

(** A node that carries text ([html] in mdast, [comment] and [text] in hast). *)
Record Literal := mkLiteral {
  type : string;
  value : string;
  position : Position
}.

#[warnings="-register-all"]
Inductive Node :=
| Leaf (l : Literal)
| Parent (type : string) (children : list Node).

(** [visit(tree, test, visitor)] of unist-util-visit calls the visitor on the
    nodes of type [test] in preorder; the types tested for here ([html],
    [comment]) are literal nodes. *)
Fixpoint visit (tree : Node) (test : string) : list Literal :=
  match tree with
  | Leaf l => if String.eqb (type l) test then [l] else []
  | Parent _ children => flat_map (fun n => visit n test) children
  end.

End Unist.

(** ** Documents of the yaml library ([yaml/types]) *)

Module Yaml.

(** Parsed nodes.  With the [failsafe] schema every scalar is a string.  The
    key and the value of a pair, and the entries of a collection, are a node
    or [null]. *)
#[warnings="-register-all"]
Inductive Node :=
| Scalar (value : string) (range : Z * Z)
| YAMLMap (items : list (option Node))
| YAMLSeq (items : list (option Node))
| Pair (key : option Node) (value : option Node)
| Alias (source : Node).

(** [item.type === 'PAIR'] *)
Definition isPAIR (n : Node) : bool :=
  match n with
  | Pair _ _ => true
  | _ => false
  end.

(** [contents.items]: only collections own the property. *)
Definition items (n : Node) : option (list (option Node)) :=
  match n with
  | YAMLMap its | YAMLSeq its => Some its
  | _ => None
  end.

(** [pair.key] *)
Definition key (n : Node) : option Node :=
  match n with
  | Pair k _ => k
  | _ => None
  end.

(** [node.value === s] for a string [s]: only a scalar has a string value. *)
Definition valueIs (n : Node) (s : string) : bool :=
  match n with
  | Scalar v _ => String.eqb v s
  | _ => false
  end.

(** [node.range[0]] of a scalar. *)
Definition rangeStart (n : Node) : option Z :=
  match n with
  | Scalar _ r => Some (fst r)
  | _ => None
  end.

Record Document := mkDocument {
  contents : option Node;
  errors : list string
}.

(** [contents?.['items']] *)
Definition itemsOf (contents : option Node) : option (list (option Node)) :=
  match contents with
  | Some c => items c
  | None => None
  end.

End Yaml.

(** ** Directive definitions *)

Inductive DirectiveType := Global | Local.

Inductive DirectiveDefinedIn := FrontMatter | Comment.

Definition directiveAlwaysAllowed : list DirectiveDefinedIn :=
  [FrontMatter; Comment].

Inductive DirectiveProvidedBy := Marpit | MarpCore | MarpCLI | MarpVSCode.

(** [DirectiveInfo].  The documentation text of a directive ([description] and
    the two [MarkdownString] renderings built from it) is left out: no
    decision of the parser reads it. *)
Record DirectiveInfo := mkDirectiveInfo {
  allowed : list DirectiveDefinedIn;
  details : option string;
  name : string;
  providedBy : DirectiveProvidedBy;
  type : DirectiveType;
  scoped : option bool
}.

Definition DirectiveDefinedIn_eqb (a b : DirectiveDefinedIn) : bool :=
  match a, b with
  | FrontMatter, FrontMatter | Comment, Comment => true
  | _, _ => false
  end.

(** [d.allowed.includes(definedIn)] *)
Definition includes (l : list DirectiveDefinedIn) (x : DirectiveDefinedIn) : bool :=
  existsb (DirectiveDefinedIn_eqb x) l.

Definition isLocal (t : DirectiveType) : bool :=
  match t with
  | Local => true
  | Global => false
  end.

(** [{ ...info, scoped }] *)
Definition withScoped (info : DirectiveInfo) (s : option bool) : DirectiveInfo :=
  {| allowed := allowed info; details := details info; name := name info;
     providedBy := providedBy info; type := type info; scoped := s |}.

(** [createDirectiveInfo] copies its argument and adds the renderings; on the
    fields kept here it is the copy. *)
Definition createDirectiveInfo (info : DirectiveInfo) : DirectiveInfo :=
  {| allowed := allowed info; details := details info; name := name info;
     providedBy := providedBy info; type := type info; scoped := scoped info |}.

(** ** Events *)

Record TextDocument := mkTextDocument { getText : string }.

(** A position is kept as the offset [doc.positionAt] was asked for (VS Code
    turns it into a line and a character, after clamping it to the text). *)
Inductive Position := positionAt (doc : TextDocument) (offset : Z).

Inductive Range := newRange (start end_ : Position).

Inductive Event :=
| startParse (document : TextDocument)
| frontMatter (body : string) (range : Range)
| comment (body : string) (range : Range)
| directive (info : option DirectiveInfo) (item : Yaml.Node) (offset : Z)
| endParse (document : TextDocument).

(** ** Emitting and throwing

    A computation emits events in order and either completes or throws. *)

Inductive Exn := TypeError.

Inductive Completion (A : Type) :=
| Normal (a : A)
| Throw (e : Exn).

Arguments Normal {A} a.
Arguments Throw {A} e.

Definition Emit (A : Type) : Type := (list Event * Completion A)%type.

Definition ret {A} (a : A) : Emit A := ([], Normal a).

Definition bind {A B} (m : Emit A) (k : A -> Emit B) : Emit B :=
  match m with
  | (es, Normal a) => let (es', r) := k a in ((es ++ es')%list, r)
  | (es, Throw e) => (es, Throw e)
  end.

Definition emit (e : Event) : Emit unit := ([e], Normal tt).

Definition lift {A} (c : Completion A) : Emit A := ([], c).

Notation "x <- m ;; k" := (bind m (fun x => k))
  (at level 61, m at next level, right associativity).
Notation "m ;;; k" := (bind m (fun _ => k))
  (at level 61, right associativity).

(** [for (const x of l) body] and the callbacks of [visit]. *)
Fixpoint forEach {A} (l : list A) (body : A -> Emit unit) : Emit unit :=
  match l with
  | [] => ret tt
  | x :: l' => body x ;;; forEach l' body
  end.

(** [Array.prototype.find] with a callback that may throw and that updates a
    variable [S] it closes over. *)
Fixpoint find {A S} (cb : A -> S -> Completion (bool * S)) (l : list A) (s : S)
  : Completion (option A * S) :=
  match l with
  | [] => Normal (None, s)
  | a :: l' =>
      match cb a s with
      | Throw e => Throw e
      | Normal (true, s') => Normal (Some a, s')
      | Normal (false, s') => find cb l' s'
      end
  end.

(** ** The built-in directives *)

Definition builtin (n : string) (a : list DirectiveDefinedIn)
  (p : DirectiveProvidedBy) (t : DirectiveType) (d : string) : DirectiveInfo :=
  createDirectiveInfo
    {| name := n; allowed := a; providedBy := p; type := t;
       details := Some d; scoped := None |}.

Definition builtinDirectives : list DirectiveInfo :=
  [ (* Marp for VS Code *)
    builtin "marp" [FrontMatter] MarpVSCode Global
      "https://github.com/marp-team/marp-vscode#usage";
    (* Marpit global directives *)
    builtin "theme" directiveAlwaysAllowed Marpit Global
      "https://marpit.marp.app/directives?id=theme";
    builtin "style" directiveAlwaysAllowed Marpit Global
      "https://marpit.marp.app/directives?id=tweak-theme-style";
    builtin "headingDivider" directiveAlwaysAllowed Marpit Global
      "https://marpit.marp.app/directives?id=heading-divider";
    (* Marpit local directives *)
    builtin "paginate" directiveAlwaysAllowed Marpit Local
      "https://marpit.marp.app/directives?id=pagination";
    builtin "header" directiveAlwaysAllowed Marpit Local
      "https://marpit.marp.app/directives?id=header-and-footer";
    builtin "footer" directiveAlwaysAllowed Marpit Local
      "https://marpit.marp.app/directives?id=header-and-footer";
    builtin "class" directiveAlwaysAllowed Marpit Local
      "https://marpit.marp.app/directives?id=class";
    builtin "backgroundColor" directiveAlwaysAllowed Marpit Local
      "https://marpit.marp.app/directives?id=backgrounds";
    builtin "backgroundImage" directiveAlwaysAllowed Marpit Local
      "https://marpit.marp.app/directives?id=backgrounds";
    builtin "backgroundPosition" directiveAlwaysAllowed Marpit Local
      "https://marpit.marp.app/directives?id=backgrounds";
    builtin "backgroundRepeat" directiveAlwaysAllowed Marpit Local
      "https://marpit.marp.app/directives?id=backgrounds";
    builtin "backgroundSize" directiveAlwaysAllowed Marpit Local
      "https://marpit.marp.app/directives?id=backgrounds";
    builtin "color" directiveAlwaysAllowed Marpit Local
      "https://marpit.marp.app/directives?id=backgrounds";
    (* Marp Core extension *)
    builtin "size" directiveAlwaysAllowed MarpCore Global
      "https://github.com/marp-team/marp-core#size-global-directive";
    (* Marp CLI metadata options *)
    builtin "title" directiveAlwaysAllowed MarpCLI Global
      "https://github.com/marp-team/marp-cli#metadata";
    builtin "description" directiveAlwaysAllowed MarpCLI Global
      "https://github.com/marp-team/marp-cli#metadata";
    builtin "url" directiveAlwaysAllowed MarpCLI Global
      "https://github.com/marp-team/marp-cli#metadata";
    builtin "image" directiveAlwaysAllowed MarpCLI Global
      "https://github.com/marp-team/marp-cli#metadata" ].

(** [directives: DirectiveInfo[] = [...DirectiveParser.builtinDirectives]]:
    the field is a public array, an own copy of the built-in list for each
    parser.  The class has no method to add a definition; a consumer adds one
    with [parser.directives.push(d)], which yields the array with [d] at its
    end and the new length. *)
Definition initialDirectives : list DirectiveInfo := builtinDirectives.

Definition push (directives : list DirectiveInfo) (d : DirectiveInfo)
  : list DirectiveInfo * Z :=
  let directives' := (directives ++ [d])%list in
  (directives', Z.of_nat (List.length directives')).

(** ** The parser *)

(** The array [markdown.match(frontMatterRegex)] returns: the index of the
    match, the matched text and the three groups. *)
Record RegExpMatchArray := mkRegExpMatchArray {
  index : Z;
  outerBody : string;
  open : string;
  body : string;
  close : string
}.

(** The callback of [this.directives.find] in [detectDirectives]; [scoped] is
    the variable the callback assigns. *)
Definition matchDirective (definedIn : DirectiveDefinedIn) (item : Yaml.Node)
  (d : DirectiveInfo) (scoped : option bool) : Completion (bool * option bool) :=
  if negb (includes (allowed d) definedIn) then Normal (false, scoped)
  else
    match Yaml.key item with
    | None => Throw TypeError (* [item.key.value] with a [null] key *)
    | Some k =>
        if Yaml.valueIs k (name d) then Normal (true, scoped)
        else if isLocal (type d) && Yaml.valueIs k ("_" ++ name d)
        then Normal (true, Some true)
        else Normal (false, scoped)
    end.

(** [this.directives.find(...)] with [scoped] starting [undefined]: the
    definition found and the final value of [scoped]. *)
Definition findDirective (directives : list DirectiveInfo)
  (definedIn : DirectiveDefinedIn) (item : Yaml.Node)
  : Completion (option DirectiveInfo * option bool) :=
  find (matchDirective definedIn item) directives None.

Section DirectiveParser.

(** [markdown.match(frontMatterRegex)] *)
Variable matchFrontMatter : string -> option RegExpMatchArray.
(** [unified().use(remarkParse).parse] and [unified().use(rehypeParse).parse] *)
Variable parseMd : string -> Unist.Node.
Variable parseHtml : string -> Unist.Node.
(** [yaml.parseDocument(yamlBody, { schema: 'failsafe' })] *)
Variable parseYaml : string -> Yaml.Document.
(** [this.directives] *)
Variable directives : list DirectiveInfo.

(** The body of the loop over the items: [item] is an entry of the
    collection, [null] included. *)
Definition detectItem (offset : Z) (definedIn : DirectiveDefinedIn)
  (item : option Yaml.Node) : Emit unit :=
  match item with
  | None => lift (Throw TypeError) (* [item.type] of [null] *)
  | Some item =>
      if Yaml.isPAIR item then
        found <- lift (findDirective directives definedIn item) ;;
        let (directiveInfo, scoped) := found in
        let info :=
          option_map (fun d => createDirectiveInfo (withScoped d scoped))
            directiveInfo in
        emit (directive info item offset)
      else ret tt
  end.

(** [detectDirectives]; the default of [definedIn] is [Comment]. *)
Definition detectDirectives (text : string) (offset : Z)
  (definedIn : DirectiveDefinedIn) : Emit unit :=
  let doc := parseYaml text in
  match (List.length (Yaml.errors doc) =? 0)%nat, Yaml.itemsOf (Yaml.contents doc) with
  | true, Some items => forEach items (detectItem offset definedIn)
  | _, _ => ret tt
  end.

(** The front-matter step of [parse]: it yields the new [markdown] and
    [index]. *)
Definition parseFrontMatter (doc : TextDocument) (markdown : string)
  : Emit (string * Z) :=
  match matchFrontMatter markdown with
  | Some fmMatched =>
      if index fmMatched =? 0 then
        let index := JS.length (open fmMatched) + JS.length (body fmMatched)
                     + JS.length (close fmMatched) in
        emit (frontMatter (outerBody fmMatched)
                (newRange (positionAt doc 0) (positionAt doc index))) ;;;
        detectDirectives (body fmMatched) (JS.length (open fmMatched)) FrontMatter ;;;
        ret (JS.slice markdown index, index)
      else ret (markdown, 0)
  | None => ret (markdown, 0)
  end.

(** The visitor of the comments of one [html] node [n]. *)
Definition visitComment (doc : TextDocument) (index : Z)
  (n c : Unist.Literal) : Emit unit :=
  let nStart := Unist.offset (Unist.start (Unist.position n)) in
  let nEnd := Unist.offset (Unist.end_ (Unist.position n)) in
  let cStart := Unist.offset (Unist.start (Unist.position c)) in
  emit (comment ("<!--" ++ Unist.value c ++ "-->")
          (newRange (positionAt doc (index + nStart - 4))
                    (positionAt doc (index + nEnd + 3)))) ;;;
  let trimmedLeft := JS.replaceLeading (Unist.value c) in
  detectDirectives (JS.replaceTrailing trimmedLeft)
    (index + nStart + cStart + 4
     + (JS.length (Unist.value c) - JS.length trimmedLeft))
    Comment.

(** The visitor of the [html] nodes of the Markdown tree. *)
Definition visitHtml (doc : TextDocument) (index : Z) (n : Unist.Literal)
  : Emit unit :=
  forEach (Unist.visit (parseHtml (Unist.value n)) "comment")
    (visitComment doc index n).

Definition parse (doc : TextDocument) : Emit unit :=
  emit (startParse doc) ;;;
  fm <- parseFrontMatter doc (getText doc) ;;
  let (markdown, index) := fm in
  forEach (Unist.visit (parseMd markdown) "html") (visitHtml doc index) ;;;
  emit (endParse doc).

End DirectiveParser.

(** ** The resolution algorithm in the words of the specification *)

Module Spec.

Definition permits (d : DirectiveInfo) (context : DirectiveDefinedIn) : bool :=
  includes (allowed d) context.

(** Rule 1: the key equals the name of a definition that permits the
    context. *)
Definition rule1 (rawKey : string) (context : DirectiveDefinedIn)
  (d : DirectiveInfo) : bool :=
  String.eqb rawKey (name d) && permits d context.

(** Rule 2: the key starts with an underscore and the rest equals the name of
    a local definition that permits the context. *)
Definition rule2 (rawKey : string) (context : DirectiveDefinedIn)
  (d : DirectiveInfo) : bool :=
  match rawKey with
  | String "_"%char rest =>
      String.eqb rest (name d) && isLocal (type d) && permits d context
  | _ => false
  end.

(** [lookupScoped]: rule 1 over the registry, else rule 2, else absent. *)
Definition lookupScoped (registry : list DirectiveInfo) (rawKey : string)
  (context : DirectiveDefinedIn) : option (DirectiveInfo * bool) :=
  match List.find (rule1 rawKey context) registry with
  | Some d => Some (d, false)
  | None =>
      match List.find (rule2 rawKey context) registry with
      | Some d => Some (d, true)
      | None => None
      end
  end.

(** What the parser's search amounts to in those terms: the definition and
    whether [scoped] was set. *)
Definition ofFound (found : option DirectiveInfo * option bool)
  : option (DirectiveInfo * bool) :=
  match found with
  | (Some d, Some true) => Some (d, true)
  | (Some d, _) => Some (d, false)
  | (None, _) => None
  end.

End Spec.

(** ** Sample documents

    What the libraries return on the documents used as examples below: the
    front-matter match, the Markdown and HTML trees and the YAML documents,
    each looked up by the text it is the result for. *)

Module Sample.

Definition LF : string := String (ascii_of_nat 10) EmptyString.

Fixpoint assoc {A} (table : list (string * A)) (default : A) (k : string) : A :=
  match table with
  | [] => default
  | (k', a) :: table' => if String.eqb k k' then a else assoc table' default k
  end.

Definition leaf (type value : string) (s e : Z) : Unist.Node :=
  Unist.Leaf
    (Unist.mkLiteral type value
       (Unist.mkPosition (Unist.mkPoint s) (Unist.mkPoint e))).

(** rehype parses a document: the comment comes before the [html] element
    with its [head] and [body]. *)
Definition htmlDocument (before : list Unist.Node) : Unist.Node :=
  Unist.Parent "root"
    (before ++ [Unist.Parent "element"
                  [Unist.Parent "element" []; Unist.Parent "element" []]])%list.

Definition pair (k : string) (ks ke : Z) (v : string) (vs ve : Z)
  : option Yaml.Node :=
  Some (Yaml.Pair (Some (Yaml.Scalar k (ks, ke))) (Some (Yaml.Scalar v (vs, ve)))).

Definition mapping (items : list (option Yaml.Node)) : Yaml.Document :=
  Yaml.mkDocument (Some (Yaml.YAMLMap items)) [].

(** The scenario of the specification. *)
Definition scenario : string :=
  "---" ++ LF ++ "theme: gaia" ++ LF ++ "---" ++ LF ++ "# Slide" ++ LF ++ LF
  ++ "<!-- paginate: true -->" ++ LF.

(** Front-matter with two pairs. *)
Definition twoPairs : string :=
  "---" ++ LF ++ "theme: gaia" ++ LF ++ "size: 4:3" ++ LF ++ "---" ++ LF
  ++ "# Slide" ++ LF.

(** Front-matter that is text. *)
Definition noteFrontMatter : string :=
  "---" ++ LF ++ "just a note" ++ LF ++ "---" ++ LF.

Definition dashPadded : string := "<!--- theme: gaia ---->".

Definition twoPairsComment : string :=
  "<!--" ++ LF ++ "theme: gaia" ++ LF ++ "paginate: true" ++ LF ++ "-->".

Definition flowSequence : string := "<!-- [theme: gaia] -->".

Definition emptyKey : string := "<!-- : x -->".

Definition note : string := "<!-- this is just a note -->".

Definition unknownKey : string := "<!-- customUnknownKey: 1 -->".

Definition matchFrontMatter : string -> option RegExpMatchArray :=
  assoc
    [ (scenario,
       Some (mkRegExpMatchArray 0
               ("---" ++ LF ++ "theme: gaia" ++ LF ++ "---")
               ("---" ++ LF) ("theme: gaia" ++ LF) "---"));
      (twoPairs,
       Some (mkRegExpMatchArray 0
               ("---" ++ LF ++ "theme: gaia" ++ LF ++ "size: 4:3" ++ LF ++ "---")
               ("---" ++ LF) ("theme: gaia" ++ LF ++ "size: 4:3" ++ LF) "---"));
      (noteFrontMatter,
       Some (mkRegExpMatchArray 0
               ("---" ++ LF ++ "just a note" ++ LF ++ "---")
               ("---" ++ LF) ("just a note" ++ LF) "---")) ]
    None.

(** A document that is one comment is one [html] node. *)
Definition oneHtml (text : string) : string * Unist.Node :=
  (text, Unist.Parent "root" [leaf "html" text 0 (JS.length text)]).

Definition parseMd : string -> Unist.Node :=
  assoc
    [ (LF ++ "# Slide" ++ LF ++ LF ++ "<!-- paginate: true -->" ++ LF,
       Unist.Parent "root"
         [ Unist.Parent "heading" [leaf "text" "Slide" 3 8];
           leaf "html" "<!-- paginate: true -->" 10 33 ]);
      (LF ++ "# Slide" ++ LF,
       Unist.Parent "root" [Unist.Parent "heading" [leaf "text" "Slide" 3 8]]);
      oneHtml dashPadded;
      oneHtml twoPairsComment;
      oneHtml flowSequence;
      oneHtml emptyKey;
      oneHtml note;
      oneHtml unknownKey ]
    (Unist.Parent "root" []).

(** An [html] node that is one comment with the text [inner]. *)
Definition oneComment (text inner : string) : string * Unist.Node :=
  (text, htmlDocument [leaf "comment" inner 0 (JS.length text)]).

Definition parseHtml : string -> Unist.Node :=
  assoc
    [ oneComment "<!-- paginate: true -->" " paginate: true ";
      oneComment dashPadded "- theme: gaia --";
      oneComment twoPairsComment
        (LF ++ "theme: gaia" ++ LF ++ "paginate: true" ++ LF);
      oneComment flowSequence " [theme: gaia] ";
      oneComment emptyKey " : x ";
      oneComment note " this is just a note ";
      oneComment unknownKey " customUnknownKey: 1 " ]
    (htmlDocument []).

Definition parseYaml : string -> Yaml.Document :=
  assoc
    [ ("theme: gaia" ++ LF, mapping [pair "theme" 0 5 "gaia" 7 11]);
      ("theme: gaia", mapping [pair "theme" 0 5 "gaia" 7 11]);
      ("paginate: true", mapping [pair "paginate" 0 8 "true" 10 14]);
      ("theme: gaia" ++ LF ++ "size: 4:3" ++ LF,
       mapping [pair "theme" 0 5 "gaia" 7 11; pair "size" 12 16 "4:3" 18 21]);
      ("theme: gaia" ++ LF ++ "paginate: true",
       mapping [pair "theme" 0 5 "gaia" 7 11; pair "paginate" 12 20 "true" 22 26]);
      (* a flow sequence keeps [key: value] entries as pairs *)
      ("[theme: gaia]",
       Yaml.mkDocument (Some (Yaml.YAMLSeq [pair "theme" 1 6 "gaia" 8 12])) []);
      (* a value without a key is a pair whose key is [null] *)
      (": x",
       mapping [Some (Yaml.Pair None (Some (Yaml.Scalar "x" (2, 3))))]);
      ("this is just a note",
       Yaml.mkDocument (Some (Yaml.Scalar "this is just a note" (0, 19))) []);
      ("just a note" ++ LF,
       Yaml.mkDocument (Some (Yaml.Scalar "just a note" (0, 11))) []);
      ("customUnknownKey: 1", mapping [pair "customUnknownKey" 0 16 "1" 18 19]) ]
    (Yaml.mkDocument None []).

(** The parser on the sample results, with the directives of a new parser. *)
Definition run (text : string) : Emit unit :=
  parse matchFrontMatter parseMd parseHtml parseYaml initialDirectives
    (mkTextDocument text).

End Sample.


(** ** Notions used to state the properties *)

(** The key node [k] passes the tests of the search callback for [d]. *)
Definition matchesKey (definedIn : DirectiveDefinedIn) (k : Yaml.Node)
  (d : DirectiveInfo) : bool :=
  includes (allowed d) definedIn
  && (Yaml.valueIs k (name d)
      || (isLocal (type d) && Yaml.valueIs k ("_" ++ name d))).

(** The value of [scoped] once [k] has matched [d]. *)
Definition scopedOf (k : Yaml.Node) (d : DirectiveInfo) : option bool :=
  if Yaml.valueIs k (name d) then None else Some true.

(** The [info] of the event for a pair with the key [k]. *)
Definition infoFor (directives : list DirectiveInfo)
  (definedIn : DirectiveDefinedIn) (k : Yaml.Node) : option DirectiveInfo :=
  option_map (fun d => createDirectiveInfo (withScoped d (scopedOf k d)))
    (List.find (matchesKey definedIn k) directives).

(** An entry of a collection that is a node and, when a pair, has a key. *)
Definition keyed (item : option Yaml.Node) : bool :=
  match item with
  | Some (Yaml.Pair None _) => false
  | Some _ => true
  | None => false
  end.

(** The events for the entries of a collection: one for each pair. *)
Definition eventsOf (directives : list DirectiveInfo) (offset : Z)
  (definedIn : DirectiveDefinedIn) (items : list (option Yaml.Node))
  : list Event :=
  flat_map
    (fun item =>
       match item with
       | Some (Yaml.Pair (Some k) v) =>
           [directive (infoFor directives definedIn k)
              (Yaml.Pair (Some k) v) offset]
       | _ => []
       end)
    items.

(** An entry that is a node other than a pair. *)
Definition notPair (item : option Yaml.Node) : bool :=
  match item with
  | Some n => negb (Yaml.isPAIR n)
  | None => false
  end.

(** A block with nothing to report: the YAML parser found errors, or the
    contents are absent or have no items (a scalar, an alias), or no item is
    a pair. *)
Definition withoutPairs (d : Yaml.Document) : bool :=
  negb (List.length (Yaml.errors d) =? 0)%nat
  || match Yaml.itemsOf (Yaml.contents d) with
     | None => true
     | Some items => forallb notPair items
     end.

Definition isDirective (e : Event) : bool :=
  match e with
  | directive _ _ _ => true
  | _ => false
  end.

(** The text [-*\s*] matches in full. *)
Definition matchesLeading (s : string) : bool :=
  JS.all JS.isWhiteSpace (JS.dropWhile JS.isDash s).

(** Definitions a consumer might add to the array. *)
Definition customUnderscoreHeader : DirectiveInfo :=
  {| name := "_header"; allowed := directiveAlwaysAllowed;
     providedBy := MarpVSCode; type := Global; details := None;
     scoped := None |}.

Definition customTheme : DirectiveInfo :=
  {| name := "theme"; allowed := [Comment]; providedBy := MarpVSCode;
     type := Local; details := None; scoped := None |}.

(** ** Further notions *)

Definition isStartParse (e : Event) : bool :=
  match e with
  | startParse _ => true
  | _ => false
  end.

Definition isEndParse (e : Event) : bool :=
  match e with
  | endParse _ => true
  | _ => false
  end.

Definition isFrontMatter (e : Event) : bool :=
  match e with
  | frontMatter _ _ => true
  | _ => false
  end.

Definition isComment (e : Event) : bool :=
  match e with
  | comment _ _ => true
  | _ => false
  end.

(** The [comment] event [parse] emits for the comment [c] of the [html]
    node [n]. *)
Definition commentEvent (doc : TextDocument) (index : Z)
  (n c : Unist.Literal) : Event :=
  comment ("<!--" ++ Unist.value c ++ "-->")
    (newRange
       (positionAt doc
          (index + Unist.offset (Unist.start (Unist.position n)) - 4))
       (positionAt doc
          (index + Unist.offset (Unist.end_ (Unist.position n)) + 3))).

(** The comments the two visitors of [parse] reach in [markdown], each with
    its [html] node, in the order of the visits. *)
Definition commentsOf (parseMd parseHtml : string -> Unist.Node)
  (markdown : string) : list (Unist.Literal * Unist.Literal) :=
  flat_map
    (fun n => map (pair n) (Unist.visit (parseHtml (Unist.value n)) "comment"))
    (Unist.visit (parseMd markdown) "html").

(** A character the two replacements are after: a dash or white space. *)
Definition isPadding (c : ascii) : bool := JS.isDash c || JS.isWhiteSpace c.

(** [s[0]] and [s[s.length - 1]], absent for the empty string. *)
Definition firstChar (s : string) : option ascii :=
  match s with
  | EmptyString => None
  | String c _ => Some c
  end.

Fixpoint lastChar (s : string) : option ascii :=
  match s with
  | EmptyString => None
  | String c EmptyString => Some c
  | String _ s' => lastChar s'
  end.

(** Some definition of the registry is permitted in the context. *)
Definition somePermitted (directives : list DirectiveInfo)
  (definedIn : DirectiveDefinedIn) : bool :=
  existsb (fun d => includes (allowed d) definedIn) directives.

(** What a [directive] event of a block says: the offset of the block, an
    item that is a pair and, for the definition if there is one, the name,
    type, permitted contexts, provider and details of a definition of the
    registry permitted in the context, with [scoped] undefined or true, true
    only if that definition is local. *)
Definition reported (directives : list DirectiveInfo)
  (definedIn : DirectiveDefinedIn) (offset : Z) (e : Event) : Prop :=
  match e with
  | directive info item o =>
      o = offset /\ Yaml.isPAIR item = true
      /\ match info with
         | Some i =>
             exists d, In d directives
                       /\ includes (allowed d) definedIn = true
                       /\ name i = name d /\ type i = type d
                       /\ allowed i = allowed d
                       /\ providedBy i = providedBy d
                       /\ details i = details d
                       /\ (scoped i = None
                           \/ (scoped i = Some true /\ type d = Local))
         | None => True
         end
  | _ => False
  end.

(** * Properties *)

(** ** Strings *)

Lemma append_assoc (a b c : string) : ((a ++ b) ++ c = a ++ (b ++ c))%string.
Proof.
  induction a as [|x a IH]; simpl; [reflexivity | now rewrite IH].
Qed.

Lemma length_append (a b : string) :
  String.length (a ++ b) = (String.length a + String.length b)%nat.
Proof.
  induction a as [|x a IH]; simpl; [reflexivity | now rewrite IH].
Qed.

Lemma substring_0_within (s : string) : forall k m L,
  (k + m <= L)%nat ->
  substring k m (substring 0 L s) = substring k m s.
Proof.
  induction s as [|x s IH]; intros k m L H.
  - destruct L; simpl; reflexivity.
  - destruct L as [|L].
    + assert (k = 0%nat) by lia. assert (m = 0%nat) by lia. subst.
      reflexivity.
    + simpl. destruct k as [|k].
      * destruct m as [|m]; [reflexivity|].
        simpl. f_equal. apply (IH 0%nat m L). lia.
      * simpl. apply IH. lia.
Qed.

Lemma substring_within (s : string) : forall p k m L,
  (k + m <= L)%nat ->
  substring k m (substring p L s) = substring (p + k) m s.
Proof.
  induction s as [|x s IH]; intros p k m L H.
  - destruct p, L, k, m; reflexivity.
  - destruct p as [|p].
    + now apply substring_0_within.
    + simpl. now apply IH.
Qed.

Lemma substring_all (s : string) : substring 0 (String.length s) s = s.
Proof.
  induction s as [|x s IH]; simpl; [reflexivity | now rewrite IH].
Qed.

Lemma substring_append_left (a b : string) : forall k m,
  (k + m <= String.length a)%nat ->
  substring k m (a ++ b) = substring k m a.
Proof.
  induction a as [|x a IH]; intros k m H; simpl in *.
  - assert (k = 0%nat) by lia. assert (m = 0%nat) by lia. subst.
    destruct b; reflexivity.
  - destruct k as [|k].
    + destruct m as [|m]; [reflexivity|].
      f_equal. apply (IH 0%nat). lia.
    + apply IH. lia.
Qed.

Lemma substring_append_right (a b : string) : forall k m,
  substring (String.length a + k) m (a ++ b) = substring k m b.
Proof.
  induction a as [|x a IH]; intros k m; simpl; [reflexivity | apply IH].
Qed.

(** A piece of the middle of [a ++ b ++ c] is found at its place. *)
Lemma substring_middle (a b c : string) (k m : nat) :
  (k + m <= String.length b)%nat ->
  substring (String.length a + k) m (a ++ b ++ c) = substring k m b.
Proof.
  intros H. rewrite substring_append_right. now apply substring_append_left.
Qed.

(** ** The two replacements *)

Lemma dropWhile_split (p : ascii -> bool) (s : string) :
  exists pre, s = (pre ++ JS.dropWhile p s)%string /\ JS.all p pre = true.
Proof.
  induction s as [|x s [pre [E A]]]; simpl.
  - now exists EmptyString.
  - destruct (p x) eqn:P.
    + exists (String x pre). simpl. rewrite P, A. now rewrite <- E.
    + now exists EmptyString.
Qed.

Lemma dropWhile_all (p : ascii -> bool) (a b : string) :
  JS.all p a = true -> JS.dropWhile p (a ++ b) = JS.dropWhile p b.
Proof.
  induction a as [|x a IH]; simpl; [reflexivity|].
  intros H. apply andb_true_iff in H as [P A]. rewrite P. now apply IH.
Qed.

Lemma dropWhile_head (p : ascii -> bool) (s : string) :
  match JS.dropWhile p s with
  | EmptyString => True
  | String x _ => p x = false
  end.
Proof.
  induction s as [|x s IH]; simpl; [exact I|].
  destruct (p x) eqn:P; [exact IH | exact P].
Qed.

(** What [replaceLeading] removes is dashes followed by white space. *)
Lemma replaceLeading_split (s : string) :
  exists pre, s = (pre ++ JS.replaceLeading s)%string
              /\ matchesLeading pre = true.
Proof.
  unfold JS.replaceLeading, matchesLeading.
  destruct (dropWhile_split JS.isDash s) as [d [Ed Ad]].
  destruct (dropWhile_split JS.isWhiteSpace (JS.dropWhile JS.isDash s))
    as [w [Ew Aw]].
  exists (d ++ w)%string. split.
  - rewrite append_assoc, <- Ew. exact Ed.
  - rewrite (dropWhile_all _ d w Ad).
    pose proof (dropWhile_head JS.isDash s) as Hh. rewrite Ew in Hh.
    destruct w as [|x w]; [reflexivity|].
    simpl in Hh |- *. rewrite Hh. exact Aw.
Qed.

(** What [replaceTrailing] removes is white space followed by dashes. *)
Lemma replaceTrailing_split (s : string) :
  exists post, s = (JS.replaceTrailing s ++ post)%string
               /\ JS.matchesTrailing post = true.
Proof.
  induction s as [|x s [post [E M]]].
  - now exists EmptyString.
  - cbn [JS.replaceTrailing].
    destruct (JS.matchesTrailing (String x s)) eqn:T.
    + now exists (String x s).
    + exists post. simpl. now rewrite <- E.
Qed.

(** ** Emitting *)

Lemma bind_fst_Forall {A B} (P : Event -> Prop) (m : Emit A) (k : A -> Emit B) :
  Forall P (fst m) -> (forall a, Forall P (fst (k a))) ->
  Forall P (fst (bind m k)).
Proof.
  intros Hm Hk. destruct m as [es [a|e]]; simpl in *; [|exact Hm].
  specialize (Hk a). destruct (k a) as [es' r]. simpl in *.
  apply Forall_app. now split.
Qed.

Lemma forEach_fst_Forall {A} (P : Event -> Prop) (body : A -> Emit unit)
  (l : list A) :
  (forall x, In x l -> Forall P (fst (body x))) ->
  Forall P (fst (forEach l body)).
Proof.
  induction l as [|x l IH]; intros H; simpl.
  - constructor.
  - apply bind_fst_Forall.
    + apply H. now left.
    + intros _. apply IH. intros y Hy. apply H. now right.
Qed.

(** A loop whose bodies all complete emits their events in order. *)
Lemma forEach_normal {A} (body : A -> Emit unit) (ev : A -> list Event)
  (l : list A) :
  (forall x, In x l -> body x = (ev x, Normal tt)) ->
  forEach l body = (flat_map ev l, Normal tt).
Proof.
  induction l as [|x l IH]; intros H; simpl.
  - reflexivity.
  - rewrite (H x (or_introl eq_refl)). unfold bind.
    rewrite IH; [reflexivity|].
    intros y Hy. apply H. now right.
Qed.

(** ** The search for a definition *)

Lemma matchDirective_keyed (definedIn : DirectiveDefinedIn)
  (item k : Yaml.Node) (d : DirectiveInfo) (s : option bool) :
  Yaml.key item = Some k ->
  matchDirective definedIn item d s
  = Normal (matchesKey definedIn k d,
            if matchesKey definedIn k d then
              match scopedOf k d with Some b => Some b | None => s end
            else s).
Proof.
  intros K. unfold matchDirective, matchesKey, scopedOf. rewrite K.
  destruct (includes (allowed d) definedIn); simpl; [|reflexivity].
  destruct (Yaml.valueIs k (name d)); simpl; [reflexivity|].
  destruct (isLocal (type d) && Yaml.valueIs k _); reflexivity.
Qed.

(** With a key, the search does not throw: it finds the first definition the
    key matches, and [scoped] tells which of the two tests matched. *)
Lemma findDirective_keyed (directives : list DirectiveInfo)
  (definedIn : DirectiveDefinedIn) (item k : Yaml.Node) :
  Yaml.key item = Some k ->
  findDirective directives definedIn item
  = Normal (List.find (matchesKey definedIn k) directives,
            match List.find (matchesKey definedIn k) directives with
            | Some d => scopedOf k d
            | None => None
            end).
Proof.
  intros K. unfold findDirective.
  induction directives as [|d l IH]; simpl; [reflexivity|].
  rewrite (matchDirective_keyed _ _ _ _ _ K).
  destruct (matchesKey definedIn k d) eqn:M.
  - destruct (scopedOf k d); reflexivity.
  - exact IH.
Qed.

Lemma detectItem_keyed (directives : list DirectiveInfo) (offset : Z)
  (definedIn : DirectiveDefinedIn) (item : option Yaml.Node) :
  keyed item = true ->
  detectItem directives offset definedIn item
  = (eventsOf directives offset definedIn [item], Normal tt).
Proof.
  intros K. destruct item as [n|]; [|discriminate]. unfold detectItem.
  destruct n as [v r|its|its|k v|a]; try reflexivity.
  destruct k as [k|]; [|discriminate]. simpl Yaml.isPAIR. cbv iota.
  rewrite (findDirective_keyed directives definedIn
             (Yaml.Pair (Some k) v) k eq_refl).
  unfold eventsOf, infoFor. cbn [flat_map].
  destruct (List.find (matchesKey definedIn k) directives); reflexivity.
Qed.

(** The events of an item are directive events with the offset of the
    block, however the item ends. *)
Lemma detectItem_offset (directives : list DirectiveInfo) (offset : Z)
  (definedIn : DirectiveDefinedIn) (item : option Yaml.Node) :
  Forall (fun e => exists info it, e = directive info it offset)
    (fst (detectItem directives offset definedIn item)).
Proof.
  destruct item as [n|]; simpl; [|constructor].
  destruct (Yaml.isPAIR n); [|constructor].
  destruct (findDirective directives definedIn n) as [[d s]|e]; simpl.
  - constructor; [|constructor]. eauto.
  - constructor.
Qed.

Section Blocks.

Variable parseYaml : string -> Yaml.Document.
Variable directives : list DirectiveInfo.

Lemma detectDirectives_offset (text : string) (offset : Z)
  (definedIn : DirectiveDefinedIn) :
  Forall (fun e => exists info it, e = directive info it offset)
    (fst (detectDirectives parseYaml directives text offset definedIn)).
Proof.
  unfold detectDirectives.
  destruct (List.length (Yaml.errors (parseYaml text)) =? 0)%nat;
    [|constructor].
  destruct (Yaml.itemsOf (Yaml.contents (parseYaml text))) as [items|];
    [|constructor].
  apply forEach_fst_Forall. intros x _. apply detectItem_offset.
Qed.

(** A block without errors whose entries are nodes with keys: one event for
    each pair, in the order of the source, and the loop completes. *)
Lemma detectDirectives_keyed (text : string) (offset : Z)
  (definedIn : DirectiveDefinedIn) (items : list (option Yaml.Node)) :
  Yaml.errors (parseYaml text) = [] ->
  Yaml.itemsOf (Yaml.contents (parseYaml text)) = Some items ->
  forallb keyed items = true ->
  detectDirectives parseYaml directives text offset definedIn
  = (eventsOf directives offset definedIn items, Normal tt).
Proof.
  intros E I K. unfold detectDirectives. rewrite E, I. simpl.
  rewrite (forEach_normal _
             (fun item => eventsOf directives offset definedIn [item])).
  - unfold eventsOf. f_equal. clear E I K.
    induction items as [|x l IH]; simpl.
    + reflexivity.
    + rewrite app_nil_r. f_equal. exact IH.
  - intros x Hx. apply detectItem_keyed.
    rewrite forallb_forall in K. now apply K.
Qed.

(** A block with nothing to report emits nothing and completes. *)
Lemma detectDirectives_withoutPairs (text : string) (offset : Z)
  (definedIn : DirectiveDefinedIn) :
  withoutPairs (parseYaml text) = true ->
  detectDirectives parseYaml directives text offset definedIn
  = ([], Normal tt).
Proof.
  unfold withoutPairs, detectDirectives. intros W.
  destruct (List.length (Yaml.errors (parseYaml text)) =? 0)%nat;
    [|reflexivity].
  destruct (Yaml.itemsOf (Yaml.contents (parseYaml text))) as [items|];
    [|reflexivity].
  simpl in W.
  rewrite (forEach_normal _ (fun _ => [])).
  - f_equal. clear W. induction items; simpl; auto.
  - intros x Hx. rewrite forallb_forall in W. specialize (W x Hx).
    destruct x as [n|]; [|discriminate]. simpl in W |- *.
    destruct (Yaml.isPAIR n); [discriminate | reflexivity].
Qed.

End Blocks.

(** ** The range of the [comment] event *)

(** C1. The [comment] event should carry the range of the comment's text,
    from its [<] to just past its [-->].  On the scenario of the
    specification the comment is the 23 characters from offset 29 of the 53
    of the document; the event carries the range from offset 25 to offset 55:
    4 is subtracted from the start of the [html] node and 3 added to its end,
    although these are already the ends of the comment. *)
Theorem comment_range_scenario :
  let doc := mkTextDocument Sample.scenario in
  nth_error (fst (Sample.run Sample.scenario)) 3
  = Some (comment "<!-- paginate: true -->"
            (newRange (positionAt doc 25) (positionAt doc 55)))
  /\ substring 29 23 Sample.scenario = "<!-- paginate: true -->"
  /\ JS.length Sample.scenario = 53.
Proof.
  repeat split; vm_compute; reflexivity.
Qed.

(** ** The offset of the directives of a comment *)

Lemma length_Z_append (a b : string) :
  JS.length (a ++ b) = JS.length a + JS.length b.
Proof.
  unfold JS.length. rewrite length_append. lia.
Qed.

Lemma isDash_not_space (c : ascii) :
  JS.isDash c = true -> JS.isWhiteSpace c = false.
Proof.
  unfold JS.isDash. intros H. apply Ascii.eqb_eq in H. now subst.
Qed.

Lemma lastChar_cons (x y : ascii) (s : string) :
  lastChar (String x (String y s)) = lastChar (String y s).
Proof.
  reflexivity.
Qed.

(** The match of [/\s*-*$/] is the leftmost: what [replaceTrailing] removes
    is matched in full, and with the last character kept before it, it is
    not. *)
Lemma replaceTrailing_leftmost (s : string) :
  exists post,
    s = (JS.replaceTrailing s ++ post)%string
    /\ JS.matchesTrailing post = true
    /\ forall c, lastChar (JS.replaceTrailing s) = Some c ->
         JS.matchesTrailing (String c post) = false.
Proof.
  induction s as [|x s [post [E [M L]]]].
  - exists EmptyString. repeat split. discriminate.
  - cbn [JS.replaceTrailing].
    destruct (JS.matchesTrailing (String x s)) eqn:T.
    + exists (String x s). repeat split; [exact T | discriminate].
    + exists post. split; [simpl; now rewrite <- E|]. split; [exact M|].
      intros c. destruct (JS.replaceTrailing s) as [|y r] eqn:R.
      * simpl. intros H. injection H as <-. simpl in E. now rewrite <- E.
      * rewrite lastChar_cons. apply L.
Qed.

Lemma filter_isDirective_eventsOf (directives : list DirectiveInfo)
  (offset : Z) (definedIn : DirectiveDefinedIn)
  (items : list (option Yaml.Node)) :
  filter isDirective (eventsOf directives offset definedIn items)
  = eventsOf directives offset definedIn items.
Proof.
  induction items as [|x items IH]; simpl; [reflexivity|].
  destruct x as [[v r|its|its|[k|] v|a]|]; simpl; try exact IH.
  now rewrite IH.
Qed.

(** C2, as the code has it. The text handed to the YAML parser for a comment
    is its value without the run of dashes at its start and the run of
    white space after it, and without the run of white space followed by a
    run of dashes at its end, these runs taken as long as they go and no
    more: what is kept does not start with white space, nor with a dash
    unless white space was removed before it, and does not end with white
    space, nor with a dash unless white space was removed after it.  Every
    [directive] event of the comment carries one and the same offset: the
    advance past the front-matter, plus the start of the [html] node, plus
    the start of the comment in it, plus 4, plus the number of characters
    removed on the left; the offset of the pair in the text is not added.
    When the text parses without errors to entries with keys, the
    [directive] events of the comment are one for each pair, in the order of
    the source.  When the text [<!--value-->] of the comment stands in the
    document at the advance plus the two starts, as the positions of the
    parsers say, what stands at an offset of the text stands in the
    document at the event's offset plus that offset. *)
Theorem comment_directive_offset
  (parseYaml : string -> Yaml.Document) (directives : list DirectiveInfo)
  (doc : TextDocument) (index : Z) (n c : Unist.Literal) :
  let value := Unist.value c in
  let at_ := index + Unist.offset (Unist.start (Unist.position n))
             + Unist.offset (Unist.start (Unist.position c)) in
  let text := JS.replaceTrailing (JS.replaceLeading value) in
  let offset :=
    at_ + 4 + (JS.length value - JS.length (JS.replaceLeading value)) in
  let events := fst (visitComment parseYaml directives doc index n c) in
  (exists d w w' d',
      value = (d ++ w ++ text ++ w' ++ d')%string
      /\ JS.all JS.isDash d = true /\ JS.all JS.isWhiteSpace w = true
      /\ JS.all JS.isWhiteSpace w' = true /\ JS.all JS.isDash d' = true
      /\ option_map JS.isDash (firstChar (w ++ text ++ w' ++ d'))
         <> Some true
      /\ option_map JS.isWhiteSpace (firstChar (text ++ w' ++ d'))
         <> Some true
      /\ option_map JS.isWhiteSpace (lastChar text) <> Some true
      /\ (option_map JS.isDash (lastChar text) = Some true
          -> w' <> EmptyString)
      /\ offset = at_ + 4 + JS.length d + JS.length w)
  /\ Forall (fun e => isDirective e = true ->
                      exists info item, e = directive info item offset)
       events
  /\ (forall items,
        Yaml.errors (parseYaml text) = [] ->
        Yaml.itemsOf (Yaml.contents (parseYaml text)) = Some items ->
        forallb keyed items = true ->
        filter isDirective events = eventsOf directives offset Comment items)
  /\ (0 <= at_ ->
      substring (Z.to_nat at_) (String.length ("<!--" ++ value ++ "-->"))
        (getText doc) = ("<!--" ++ value ++ "-->")%string ->
      forall k m, (k + m <= String.length text)%nat ->
        substring (Z.to_nat offset + k) m (getText doc)
        = substring k m text).
Proof.
  intros value at_ text offset events.
  destruct (dropWhile_split JS.isDash value) as [d [Ed Ad]].
  pose proof (dropWhile_head JS.isDash value) as Hd.
  destruct (dropWhile_split JS.isWhiteSpace (JS.dropWhile JS.isDash value))
    as [w [Ew Aw]].
  pose proof (dropWhile_head JS.isWhiteSpace (JS.dropWhile JS.isDash value))
    as Hw.
  fold (JS.replaceLeading value) in Ew, Hw.
  destruct (replaceTrailing_leftmost (JS.replaceLeading value))
    as [post [Epost [Mpost Lpost]]].
  fold text in Epost, Lpost.
  destruct (dropWhile_split JS.isWhiteSpace post) as [w' [Ew' Aw']].
  set (d' := JS.dropWhile JS.isWhiteSpace post) in *.
  assert (Ad' : JS.all JS.isDash d' = true) by exact Mpost.
  assert (Hval : value = (d ++ w ++ text ++ w' ++ d')%string).
  { rewrite Ed at 1. rewrite Ew at 1. rewrite Epost at 1.
    now rewrite Ew' at 1. }
  assert (Hoff : offset = at_ + 4 + JS.length d + JS.length w).
  { unfold offset. rewrite Ed at 1. rewrite Ew at 1.
    rewrite !length_Z_append. lia. }
  assert (Hsplit : exists pre post',
             value = (pre ++ text ++ post')%string
             /\ offset = at_ + 4 + JS.length pre).
  { exists (d ++ w)%string, (w' ++ d')%string. split.
    - rewrite Hval at 1. now rewrite !append_assoc.
    - rewrite Hoff, length_Z_append. lia. }
  split; [|split; [|split]].
  - exists d, w, w', d'. repeat split; auto.
    + rewrite <- Ew', <- Epost, <- Ew. intros H.
      destruct (JS.dropWhile JS.isDash value); simpl in *;
        [discriminate | congruence].
    + rewrite <- Ew', <- Epost. intros H.
      destruct (JS.replaceLeading value); simpl in *;
        [discriminate | congruence].
    + intros H. destruct (lastChar text) as [x|] eqn:Lx; [|discriminate].
      simpl in H. injection H as H. specialize (Lpost x eq_refl).
      unfold JS.matchesTrailing in Lpost, Mpost. simpl in Lpost.
      rewrite H in Lpost. congruence.
    + intros H Hw'. destruct (lastChar text) as [x|] eqn:Lx; [|discriminate].
      simpl in H. injection H as H. specialize (Lpost x eq_refl).
      subst w'. simpl in Ew'. unfold JS.matchesTrailing in Lpost.
      simpl in Lpost. rewrite (isDash_not_space x H) in Lpost.
      simpl in Lpost. rewrite H in Lpost. simpl in Lpost.
      rewrite Ew' in Lpost. fold d' in Lpost. congruence.
  - unfold events, visitComment. apply bind_fst_Forall.
    + constructor; [|constructor]. discriminate.
    + intros _. fold value. fold at_. fold offset.
      eapply Forall_impl; [|apply detectDirectives_offset].
      intros e He _. exact He.
  - intros items E I K. unfold events, visitComment.
    fold value. fold text. fold at_. fold offset.
    rewrite (detectDirectives_keyed parseYaml directives _ _ _ items E I K).
    simpl. apply filter_isDirective_eventsOf.
  - intros Hat Hdoc k m Hk.
    destruct Hsplit as [pre [post' [Hv Ho]]].
    set (v := ("<!--" ++ value ++ "-->")%string) in *.
    assert (Hv' : v = (("<!--" ++ pre) ++ text ++ (post' ++ "-->"))%string).
    { unfold v. rewrite Hv. now rewrite !append_assoc. }
    replace (Z.to_nat offset + k)%nat
      with (Z.to_nat at_ + (String.length ("<!--" ++ pre) + k))%nat.
    2:{ rewrite Ho. unfold JS.length. rewrite length_append. simpl. lia. }
    rewrite <- (substring_within (getText doc) (Z.to_nat at_)
                  (String.length ("<!--" ++ pre) + k) m (String.length v)).
    + rewrite Hdoc, Hv'. now apply substring_middle.
    + rewrite Hv'. rewrite !length_append. lia.
Qed.

(** The comment [<!--- theme: gaia ---->]: the text is [theme: gaia], the
    comment yields one [directive] event, for [theme], and its offset, 6, is
    that of the [t] of [theme]. *)
Lemma comment_directive_offset_witness :
  let doc := mkTextDocument Sample.dashPadded in
  let c := Unist.mkLiteral "comment" "- theme: gaia --"
             (Unist.mkPosition (Unist.mkPoint 0) (Unist.mkPoint 23)) in
  let n := Unist.mkLiteral "html" Sample.dashPadded
             (Unist.mkPosition (Unist.mkPoint 0) (Unist.mkPoint 23)) in
  JS.replaceTrailing (JS.replaceLeading (Unist.value c)) = "theme: gaia"
  /\ filter isDirective
       (fst (visitComment Sample.parseYaml initialDirectives doc 0 n c))
     = [directive
          (Some {| allowed := [FrontMatter; Comment];
                   details :=
                     Some "https://marpit.marp.app/directives?id=theme";
                   name := "theme"; providedBy := Marpit; type := Global;
                   scoped := None |})
          (Yaml.Pair (Some (Yaml.Scalar "theme" (0, 5)))
             (Some (Yaml.Scalar "gaia" (7, 11)))) 6]
  /\ substring 6 5 Sample.dashPadded = "theme".
Proof.
  intros doc c n.
  destruct (comment_directive_offset Sample.parseYaml initialDirectives
              doc 0 n c) as [_ [_ [H3 H4]]].
  split; [vm_compute; reflexivity|]. split.
  - exact (H3 [Sample.pair "theme" 0 5 "gaia" 7 11]
             eq_refl eq_refl eq_refl).
  - refine (H4 _ _ 0%nat 5%nat _).
    + vm_compute. discriminate.
    + vm_compute. reflexivity.
    + vm_compute. lia.
Defined.

(** C2, as stated, fails.  In the comment with the two pairs [theme] and
    [paginate] the key [paginate] stands at offset 12 of the text and at
    offset 17 of the document, and its event carries the offset 5 of the
    text; and of [ - x - ] the replacements leave [- x -], with a dash at
    either end. *)
Lemma comment_directive_offset_counterexample :
  (exists info v,
      nth_error (fst (Sample.run Sample.twoPairsComment)) 3
      = Some (directive info
                (Yaml.Pair (Some (Yaml.Scalar "paginate" (12, 20))) v) 5))
  /\ substring 17 8 Sample.twoPairsComment = "paginate"
  /\ JS.replaceTrailing (JS.replaceLeading " - x - ") = "- x -".
Proof.
  split; [|split]; [|vm_compute; reflexivity ..].
  eexists. eexists. vm_compute. reflexivity.
Qed.

(** ** The offset of the directives of the front-matter *)

(** C3, as the code has it. When the front-matter is matched at the start of
    the document, every [directive] event of its body, not only the first,
    carries one and the same offset, the length of the opening delimiter,
    which is the offset of the body in the document: what stands at an offset
    of the body stands in the document at the event's offset plus that
    offset.  When the body has no errors and its entries are nodes with
    keys, the events are one for each pair, in the order of the source. *)
Theorem frontMatter_directive_offset
  (matchFrontMatter : string -> option RegExpMatchArray)
  (parseYaml : string -> Yaml.Document) (directives : list DirectiveInfo)
  (doc : TextDocument) (m : RegExpMatchArray) (rest : string) :
  let offset := JS.length (open m) in
  let events :=
    fst (parseFrontMatter matchFrontMatter parseYaml directives doc
           (getText doc)) in
  matchFrontMatter (getText doc) = Some m ->
  index m = 0 ->
  getText doc = (open m ++ body m ++ close m ++ rest)%string ->
  Forall (fun e => isDirective e = true ->
                   exists info item, e = directive info item offset) events
  /\ (forall k l, (k + l <= String.length (body m))%nat ->
        substring (Z.to_nat offset + k) l (getText doc)
        = substring k l (body m))
  /\ (forall items,
        Yaml.errors (parseYaml (body m)) = [] ->
        Yaml.itemsOf (Yaml.contents (parseYaml (body m))) = Some items ->
        forallb keyed items = true ->
        filter isDirective events
        = eventsOf directives offset FrontMatter items).
Proof.
  intros offset events Hm Hi Hdoc. subst events.
  unfold parseFrontMatter. rewrite Hm, Hi. simpl Z.eqb. cbv iota.
  split; [|split].
  - apply bind_fst_Forall.
    + constructor; [|constructor]. discriminate.
    + intros _. apply bind_fst_Forall.
      * eapply Forall_impl; [|apply detectDirectives_offset].
        intros e He _. exact He.
      * intros _. constructor.
  - intros k l Hk. rewrite Hdoc. unfold offset, JS.length.
    rewrite Nat2Z.id. now apply substring_middle.
  - intros items E I K.
    rewrite (detectDirectives_keyed parseYaml directives _ _ _ items E I K).
    simpl. rewrite app_nil_r. fold offset.
    clear. induction items as [|x items IH]; simpl; [reflexivity|].
    destruct x as [[v r|its|its|[k|] v|a]|]; simpl; try exact IH.
    now rewrite IH.
Qed.

(** The front-matter with the pairs [theme] and [size]: both events carry
    the offset 4, and [size], at offset 12 of the body, stands at offset 16 of
    the document. *)
Lemma frontMatter_directive_offset_witness :
  let doc := mkTextDocument Sample.twoPairs in
  Forall (fun e => isDirective e = true ->
                   exists info item, e = directive info item 4)
    (fst (parseFrontMatter Sample.matchFrontMatter Sample.parseYaml
            initialDirectives doc Sample.twoPairs))
  /\ substring (4 + 12) 4 Sample.twoPairs = "size".
Proof.
  intros doc.
  destruct (frontMatter_directive_offset Sample.matchFrontMatter
              Sample.parseYaml initialDirectives doc
              (mkRegExpMatchArray 0
                 ("---" ++ Sample.LF ++ "theme: gaia" ++ Sample.LF
                  ++ "size: 4:3" ++ Sample.LF ++ "---")
                 ("---" ++ Sample.LF)
                 ("theme: gaia" ++ Sample.LF ++ "size: 4:3" ++ Sample.LF)
                 "---")
              (Sample.LF ++ "# Slide" ++ Sample.LF))
    as [H1 [H2 _]].
  - vm_compute. reflexivity.
  - reflexivity.
  - vm_compute. reflexivity.
  - split; [exact H1|].
    exact (H2 12%nat 4%nat ltac:(vm_compute; lia)).
Defined.

(** C3, as stated, fails.  The event of the second pair of that
    front-matter, [size], carries the offset 4, where the document has
    [them]; the key stands at offset 12 of the body and at offset 16 of the
    document. *)
Lemma frontMatter_directive_offset_counterexample :
  (exists info v,
      nth_error (fst (Sample.run Sample.twoPairs)) 3
      = Some (directive info
                (Yaml.Pair (Some (Yaml.Scalar "size" (12, 16))) v) 4))
  /\ substring 4 4 Sample.twoPairs = "them"
  /\ substring 16 4 Sample.twoPairs = "size".
Proof.
  split; [|split]; [|vm_compute; reflexivity ..].
  eexists. eexists. vm_compute. reflexivity.
Qed.

(** ** The built-in directives *)

(** C4, as the code has it. Every built-in definition but [marp] permits
    both contexts, the front-matter and the comments; [marp] permits the
    front-matter only. *)
Theorem builtin_allowed :
  Forall (fun d => if String.eqb (name d) "marp"
                   then allowed d = [FrontMatter]
                   else allowed d = [FrontMatter; Comment])
    builtinDirectives.
Proof.
  unfold builtinDirectives. repeat constructor.
Qed.

(** C4, as stated, fails: the built-in definition [marp] does not permit the
    comments. *)
Lemma builtin_allowed_counterexample :
  exists d, In d builtinDirectives /\ name d = "marp"
            /\ includes (allowed d) Comment = false.
Proof.
  exists (builtin "marp" [FrontMatter] MarpVSCode Global
            "https://github.com/marp-team/marp-vscode#usage").
  split; [now left | split; reflexivity].
Qed.

(** ** Resolution and the two rules of the specification *)

Lemma rule2_eqb (rawKey : string) (context : DirectiveDefinedIn)
  (d : DirectiveInfo) :
  Spec.rule2 rawKey context d
  = String.eqb rawKey ("_" ++ name d) && isLocal (type d)
    && Spec.permits d context.
Proof.
  unfold Spec.rule2. destruct rawKey as [|c rest]; [reflexivity|].
  destruct c as [[] [] [] [] [] [] [] []]; reflexivity.
Qed.

Lemma matchesKey_rules (rawKey : string) (range : Z * Z)
  (context : DirectiveDefinedIn) (d : DirectiveInfo) :
  matchesKey context (Yaml.Scalar rawKey range) d
  = Spec.rule1 rawKey context d || Spec.rule2 rawKey context d.
Proof.
  rewrite rule2_eqb. unfold matchesKey, Spec.rule1, Spec.permits.
  cbn [Yaml.valueIs].
  destruct (includes (allowed d) context), (rawKey =? name d)%string,
    (isLocal (type d)), (rawKey =? "_" ++ name d)%string; reflexivity.
Qed.

Lemma rule1_not_rule2 (rawKey : string) (context : DirectiveDefinedIn)
  (d : DirectiveInfo) :
  Spec.rule1 rawKey context d = true -> Spec.rule2 rawKey context d = false.
Proof.
  rewrite rule2_eqb. unfold Spec.rule1. intros H.
  apply andb_true_iff in H as [E _]. apply String.eqb_eq in E. subst.
  replace (name d =? "_" ++ name d)%string with false; [reflexivity|].
  symmetry. apply String.eqb_neq. intros E.
  apply (f_equal String.length) in E. simpl in E. lia.
Qed.

Lemma find_ext_in {A} (p q : A -> bool) (l : list A) :
  (forall x, In x l -> p x = q x) -> List.find p l = List.find q l.
Proof.
  induction l as [|x l IH]; intros H; simpl; [reflexivity|].
  rewrite (H x (or_introl eq_refl)). destruct (q x); [reflexivity|].
  apply IH. intros y Hy. apply H. now right.
Qed.

(** C5, as the code has it. The search takes the definitions in the order of
    the registry and tries, for each, the exact name and then the underscored
    name.  So for every registry, context and key such that no definition
    matching by rule 2 stands before one matching by rule 1, the result is
    that of the specification's [lookupScoped], in which rule 1 comes first:
    a definition named [_foo] that stands before the local [foo] is the one
    found for the key [_foo], unscoped. *)
Theorem findDirective_lookupScoped (directives : list DirectiveInfo)
  (context : DirectiveDefinedIn) (rawKey : string) (range : Z * Z)
  (v : option Yaml.Node) :
  (forall l1 d l2,
      directives = (l1 ++ d :: l2)%list ->
      Spec.rule1 rawKey context d = true ->
      existsb (Spec.rule2 rawKey context) l1 = false) ->
  exists found,
    findDirective directives context
      (Yaml.Pair (Some (Yaml.Scalar rawKey range)) v) = Normal found
    /\ Spec.ofFound found = Spec.lookupScoped directives rawKey context.
Proof.
  intros H. eexists. split.
  { apply findDirective_keyed with (k := Yaml.Scalar rawKey range).
    reflexivity. }
  rewrite (find_ext_in _ _ _
             (fun d _ => matchesKey_rules rawKey range context d)).
  unfold Spec.lookupScoped.
  induction directives as [|d l IH]; [reflexivity|]. simpl.
  destruct (Spec.rule1 rawKey context d) eqn:R1; simpl.
  - unfold scopedOf. cbn [Yaml.valueIs]. unfold Spec.rule1 in R1.
    apply andb_true_iff in R1 as [E _]. now rewrite E.
  - destruct (Spec.rule2 rawKey context d) eqn:R2.
    + assert (N : List.find (Spec.rule1 rawKey context) l = None).
      { destruct (List.find (Spec.rule1 rawKey context) l) as [d'|] eqn:F;
          [|reflexivity].
        apply find_some in F as [I R]. apply in_split in I as [l1 [l2 E]].
        specialize (H (d :: l1) d' l2). simpl in H. rewrite R2 in H.
        rewrite E in H. specialize (H eq_refl R). discriminate. }
      rewrite N. unfold scopedOf. cbn [Yaml.valueIs].
      rewrite rule2_eqb in R2.
      apply andb_true_iff in R2 as [R2 _]. apply andb_true_iff in R2 as [E _].
      apply String.eqb_eq in E.
      replace (rawKey =? name d)%string with false; [reflexivity|].
      symmetry. apply String.eqb_neq. intros E'. rewrite E' in E.
      apply (f_equal String.length) in E. simpl in E. lia.
    + apply IH. intros l1 d' l2 E R.
      specialize (H (d :: l1) d' l2). simpl in H. rewrite R2 in H.
      apply H; [now rewrite E | exact R].
Qed.

(** A definition named [_header] put before the built-in ones: the key
    [_header] resolves to it, unscoped, as rule 1 of the specification has
    it, not to the local [header]. *)
Lemma findDirective_lookupScoped_witness :
  exists found,
    findDirective (customUnderscoreHeader :: initialDirectives) Comment
      (Yaml.Pair (Some (Yaml.Scalar "_header" (0, 7))) None) = Normal found
    /\ Spec.ofFound found
       = Spec.lookupScoped (customUnderscoreHeader :: initialDirectives)
           "_header" Comment.
Proof.
  apply findDirective_lookupScoped.
  intros l1 d l2 E R. destruct l1 as [|d0 l1]; [reflexivity|].
  exfalso. injection E as _ E.
  assert (I : In d initialDirectives) by (rewrite E; apply in_elt).
  assert (F : forallb (fun d => negb (Spec.rule1 "_header" Comment d))
                initialDirectives = true) by (vm_compute; reflexivity).
  rewrite forallb_forall in F. specialize (F d I). rewrite R in F.
  discriminate.
Defined.

(** C5, as stated, fails.  With a definition named [_header] added at the
    end of the array, the key [_header] resolves to the local [header], with
    [scoped] set, while rule 1 of the specification gives the definition
    named [_header]. *)
Lemma findDirective_lookupScoped_counterexample :
  let directives := fst (push initialDirectives customUnderscoreHeader) in
  findDirective directives Comment
    (Yaml.Pair (Some (Yaml.Scalar "_header" (0, 7))) None)
  = Normal (Some (builtin "header" directiveAlwaysAllowed Marpit Local
                    "https://marpit.marp.app/directives?id=header-and-footer"),
            Some true)
  /\ Spec.lookupScoped directives "_header" Comment
     = Some (customUnderscoreHeader, false).
Proof.
  split; vm_compute; reflexivity.
Qed.

(** ** Adding a definition *)

Lemma find_app_found {A S} (cb : A -> S -> Completion (bool * S))
  (l l' : list A) (s s' : S) (x : A) :
  find cb l s = Normal (Some x, s') ->
  find cb (l ++ l') s = Normal (Some x, s').
Proof.
  revert s. induction l as [|a l IH]; intros s H; simpl in *.
  - discriminate.
  - destruct (cb a s) as [[[] s1]|e]; auto.
Qed.

(** C6, as the code has it. A definition is added by pushing it on the
    [directives] array, and that never fails, whatever its name: the array
    then is the old one followed by the definition, the definitions that were
    there are unchanged and at their places, and a key for which a
    definition was found before resolves to the same definition, so that a
    definition added under a name in use does not replace the first one. *)
Theorem push_keeps_definitions (directives : list DirectiveInfo)
  (d : DirectiveInfo) :
  push directives d
  = ((directives ++ [d])%list, Z.of_nat (List.length directives) + 1)
  /\ firstn (List.length directives) (fst (push directives d)) = directives
  /\ forall definedIn item x s,
       findDirective directives definedIn item = Normal (Some x, s) ->
       findDirective (fst (push directives d)) definedIn item
       = Normal (Some x, s).
Proof.
  unfold push. cbn [fst]. split; [|split].
  - f_equal. rewrite length_app. simpl. lia.
  - rewrite firstn_app, Nat.sub_diag, firstn_all. simpl. apply app_nil_r.
  - intros definedIn item x s H. now apply find_app_found.
Qed.

(** A second definition named [theme] pushed on the array of a new parser:
    the key [theme] still resolves to the built-in one. *)
Lemma push_keeps_definitions_witness :
  findDirective (fst (push initialDirectives customTheme)) Comment
    (Yaml.Pair (Some (Yaml.Scalar "theme" (0, 5))) None)
  = Normal (Some (builtin "theme" directiveAlwaysAllowed Marpit Global
                    "https://marpit.marp.app/directives?id=theme"),
            None).
Proof.
  apply (push_keeps_definitions initialDirectives customTheme).
  vm_compute. reflexivity.
Defined.

(** C6, as stated, fails.  Pushing a definition named [theme] on the array
    of a new parser gives an array of 20 definitions, two of them named
    [theme]: no error is raised. *)
Lemma push_keeps_definitions_counterexample :
  push initialDirectives customTheme
  = ((initialDirectives ++ [customTheme])%list, 20)
  /\ List.length
       (filter (fun d => String.eqb (name d) "theme")
          (fst (push initialDirectives customTheme))) = 2%nat.
Proof.
  split; vm_compute; reflexivity.
Qed.

(** ** Blocks that are not mappings *)

(** C7, as the code has it. When the YAML parser reports errors for the text
    of a block, or the parsed contents are absent or have no items (a lone
    scalar), or no item is a pair, the block yields its own event and no
    [directive] event, and the step completes: for the trimmed text of a
    comment the [comment] event, for the body of the front-matter the
    [frontMatter] event. *)
Theorem block_without_pairs
  (matchFrontMatter : string -> option RegExpMatchArray)
  (parseYaml : string -> Yaml.Document) (directives : list DirectiveInfo)
  (doc : TextDocument) :
  (forall index n c,
      withoutPairs
        (parseYaml (JS.replaceTrailing (JS.replaceLeading (Unist.value c))))
      = true ->
      visitComment parseYaml directives doc index n c
      = ([comment ("<!--" ++ Unist.value c ++ "-->")
            (newRange
               (positionAt doc
                  (index + Unist.offset (Unist.start (Unist.position n)) - 4))
               (positionAt doc
                  (index + Unist.offset (Unist.end_ (Unist.position n)) + 3)))],
         Normal tt))
  /\ (forall markdown m,
        matchFrontMatter markdown = Some m ->
        index m = 0 ->
        withoutPairs (parseYaml (body m)) = true ->
        let index' :=
          JS.length (open m) + JS.length (body m) + JS.length (close m) in
        parseFrontMatter matchFrontMatter parseYaml directives doc markdown
        = ([frontMatter (outerBody m)
              (newRange (positionAt doc 0) (positionAt doc index'))],
           Normal (JS.slice markdown index', index'))).
Proof.
  split.
  - intros index n c W. unfold visitComment.
    rewrite (detectDirectives_withoutPairs _ _ _ _ _ W). reflexivity.
  - intros markdown m M I W index'. unfold parseFrontMatter.
    rewrite M, I. simpl Z.eqb. cbv iota.
    rewrite (detectDirectives_withoutPairs _ _ _ _ _ W). reflexivity.
Qed.

(** The comment [<!-- this is just a note -->] and the front-matter whose
    body is [just a note]. *)
Lemma block_without_pairs_witness :
  let c := Unist.mkLiteral "comment" " this is just a note "
             (Unist.mkPosition (Unist.mkPoint 0) (Unist.mkPoint 28)) in
  let n := Unist.mkLiteral "html" Sample.note
             (Unist.mkPosition (Unist.mkPoint 0) (Unist.mkPoint 28)) in
  let doc := mkTextDocument Sample.note in
  let doc' := mkTextDocument Sample.noteFrontMatter in
  visitComment Sample.parseYaml initialDirectives doc 0 n c
  = ([comment Sample.note
        (newRange (positionAt doc (-4)) (positionAt doc 31))], Normal tt)
  /\ fst (parseFrontMatter Sample.matchFrontMatter Sample.parseYaml
            initialDirectives doc' Sample.noteFrontMatter)
     = [frontMatter ("---" ++ Sample.LF ++ "just a note" ++ Sample.LF ++ "---")
          (newRange (positionAt doc' 0) (positionAt doc' 19))].
Proof.
  intros c n doc doc'. split.
  - apply (proj1 (block_without_pairs Sample.matchFrontMatter
                    Sample.parseYaml initialDirectives doc) 0 n c).
    vm_compute. reflexivity.
  - rewrite (proj2 (block_without_pairs Sample.matchFrontMatter
                      Sample.parseYaml initialDirectives doc')
               Sample.noteFrontMatter
               (mkRegExpMatchArray 0
                  ("---" ++ Sample.LF ++ "just a note" ++ Sample.LF ++ "---")
                  ("---" ++ Sample.LF) ("just a note" ++ Sample.LF) "---")).
    + reflexivity.
    + vm_compute. reflexivity.
    + reflexivity.
    + vm_compute. reflexivity.
Defined.

(** C7, as stated, fails.  The text [[theme: gaia]] parses without errors
    to a sequence, which is not a mapping but has items, and its entry is a
    pair: the comment yields a [directive] event for [theme]. *)
Lemma block_without_pairs_counterexample :
  let doc := mkTextDocument Sample.flowSequence in
  let item := Yaml.Pair (Some (Yaml.Scalar "theme" (1, 6)))
                (Some (Yaml.Scalar "gaia" (8, 12))) in
  JS.replaceTrailing (JS.replaceLeading " [theme: gaia] ") = "[theme: gaia]"
  /\ Sample.parseYaml "[theme: gaia]"
     = Yaml.mkDocument (Some (Yaml.YAMLSeq [Some item])) []
  /\ Sample.run Sample.flowSequence
     = ([ startParse doc;
          comment Sample.flowSequence
            (newRange (positionAt doc (-4)) (positionAt doc 25));
          directive
            (Some (builtin "theme" directiveAlwaysAllowed Marpit Global
                     "https://marpit.marp.app/directives?id=theme"))
            item 5;
          endParse doc ], Normal tt).
Proof.
  repeat split.
Qed.

(** ** Scoped and unknown keys *)


Lemma find_absent {A} (p : A -> bool) (l : list A) :
  (forall x, In x l -> p x = false) -> List.find p l = None.
Proof.
  induction l as [|x l IH]; intros H; simpl; [reflexivity|].
  rewrite (H x (or_introl eq_refl)). apply IH. intros y Hy. apply H.
  now right.
Qed.





Lemma in_eventsOf (directives : list DirectiveInfo) (offset : Z)
  (definedIn : DirectiveDefinedIn) (items : list (option Yaml.Node))
  (k : Yaml.Node) (v : option Yaml.Node) :
  In (Some (Yaml.Pair (Some k) v)) items ->
  In (directive (infoFor directives definedIn k) (Yaml.Pair (Some k) v) offset)
    (eventsOf directives offset definedIn items).
Proof.
  intros I. unfold eventsOf. apply in_flat_map.
  exists (Some (Yaml.Pair (Some k) v)). split; [exact I | now left].
Qed.

(** C9. In a block that parses without errors to a mapping whose entries are
    pairs with keys, every pair whose key matches no definition of the
    registry in the context is reported: the block yields a [directive]
    event for it, with no definition, and the loop completes. *)
Theorem unknown_key_reported
  (parseYaml : string -> Yaml.Document) (directives : list DirectiveInfo)
  (text : string) (offset : Z) (definedIn : DirectiveDefinedIn)
  (items : list (option Yaml.Node)) (k : Yaml.Node) (v : option Yaml.Node) :
  Yaml.errors (parseYaml text) = [] ->
  Yaml.contents (parseYaml text) = Some (Yaml.YAMLMap items) ->
  forallb keyed items = true ->
  In (Some (Yaml.Pair (Some k) v)) items ->
  forallb (fun d => negb (matchesKey definedIn k d)) directives = true ->
  let block := detectDirectives parseYaml directives text offset definedIn in
  In (directive None (Yaml.Pair (Some k) v) offset) (fst block)
  /\ snd block = Normal tt.
Proof.
  intros E C K I U block. subst block.
  rewrite (detectDirectives_keyed parseYaml directives text offset definedIn
             items E); [|now rewrite C | exact K].
  split; [|reflexivity]. cbn [fst].
  replace None with (infoFor directives definedIn k).
  - now apply in_eventsOf.
  - unfold infoFor. rewrite find_absent; [reflexivity|].
    intros d Id. rewrite forallb_forall in U.
    now apply negb_true_iff, U.
Qed.

(** The comment [<!-- customUnknownKey: 1 -->]. *)
Lemma unknown_key_reported_witness :
  let item := Yaml.Pair (Some (Yaml.Scalar "customUnknownKey" (0, 16)))
                (Some (Yaml.Scalar "1" (18, 19))) in
  let block := detectDirectives Sample.parseYaml initialDirectives
                 "customUnknownKey: 1" 5 Comment in
  In (directive None item 5) (fst block) /\ snd block = Normal tt.
Proof.
  intros item.
  apply (unknown_key_reported Sample.parseYaml initialDirectives
           "customUnknownKey: 1" 5 Comment [Some item]
           (Yaml.Scalar "customUnknownKey" (0, 16))
           (Some (Yaml.Scalar "1" (18, 19)))).
  - reflexivity.
  - reflexivity.
  - reflexivity.
  - simpl. tauto.
  - vm_compute. reflexivity.
Defined.

(** ** Completion *)

Lemma bind_completes {A B} (m : Emit A) (k : A -> Emit B) (a : A) (b : B) :
  snd m = Normal a -> snd (k a) = Normal b -> snd (bind m k) = Normal b.
Proof.
  destruct m as [es [a'|e]]; simpl; intros Hm Hk; [|discriminate].
  injection Hm as ->. destruct (k a). exact Hk.
Qed.

Lemma forEach_completes {A} (body : A -> Emit unit) (l : list A) :
  (forall x, In x l -> snd (body x) = Normal tt) ->
  snd (forEach l body) = Normal tt.
Proof.
  induction l as [|x l IH]; intros H; simpl; [reflexivity|].
  apply bind_completes with (a := tt).
  - apply H. now left.
  - apply IH. intros y Hy. apply H. now right.
Qed.

(** The parser completes on every document for which the collections the
    YAML parser returns have nodes as entries and keys in their pairs: a
    [null] entry and a [null] key are the only ways for it to throw. *)
Lemma parse_completes
  (matchFrontMatter : string -> option RegExpMatchArray)
  (parseMd parseHtml : string -> Unist.Node)
  (parseYaml : string -> Yaml.Document) (directives : list DirectiveInfo)
  (doc : TextDocument) :
  (forall text items,
      Yaml.itemsOf (Yaml.contents (parseYaml text)) = Some items ->
      forallb keyed items = true) ->
  snd (parse matchFrontMatter parseMd parseHtml parseYaml directives doc)
  = Normal tt.
Proof.
  intros K.
  assert (D : forall text offset definedIn,
             snd (detectDirectives parseYaml directives text offset definedIn)
             = Normal tt).
  { intros text offset definedIn. unfold detectDirectives.
    destruct (List.length (Yaml.errors (parseYaml text)) =? 0)%nat;
      [|reflexivity].
    destruct (Yaml.itemsOf (Yaml.contents (parseYaml text)))
      as [items|] eqn:I; [|reflexivity].
    apply forEach_completes. intros x Hx.
    rewrite detectItem_keyed; [reflexivity|].
    specialize (K text items I). rewrite forallb_forall in K. now apply K. }
  unfold parse. apply bind_completes with (a := tt); [reflexivity|].
  assert (F : exists fm,
             snd (parseFrontMatter matchFrontMatter parseYaml directives doc
                    (getText doc)) = Normal fm).
  { unfold parseFrontMatter.
    destruct (matchFrontMatter (getText doc)) as [m|]; [|now eexists].
    destruct (index m =? 0); [|now eexists].
    eexists. apply bind_completes with (a := tt); [reflexivity|].
    apply bind_completes with (a := tt); [apply D | reflexivity]. }
  destruct F as [[markdown index'] F].
  apply bind_completes with (a := (markdown, index')); [exact F|].
  apply bind_completes with (a := tt); [|reflexivity].
  apply forEach_completes. intros n _. unfold visitHtml.
  apply forEach_completes. intros c _. unfold visitComment.
  apply bind_completes with (a := tt); [reflexivity | apply D].
Qed.

(** C10. The parser should complete on every document.  On the comment
    [<!-- : x -->] it throws: the text [: x] parses without errors to a
    mapping whose pair has the key [null], and the search reads the value of
    that key for the first definition permitted in comments.  The [comment]
    event has been emitted; no [endParse] event follows. *)
Theorem parse_throws_on_empty_key :
  let doc := mkTextDocument Sample.emptyKey in
  JS.replaceTrailing (JS.replaceLeading " : x ") = ": x"
  /\ Sample.parseYaml ": x"
     = Yaml.mkDocument
         (Some (Yaml.YAMLMap
                  [Some (Yaml.Pair None (Some (Yaml.Scalar "x" (2, 3))))])) []
  /\ Sample.run Sample.emptyKey
     = ([ startParse doc;
          comment Sample.emptyKey
            (newRange (positionAt doc (-4)) (positionAt doc 15)) ],
        Throw TypeError).
Proof.
  repeat split.
Qed.

(** ** The sequence of events of [parse] *)

Lemma bind_fst {A B} (m : Emit A) (k : A -> Emit B) :
  fst (bind m k)
  = (fst m ++ match snd m with
              | Normal a => fst (k a)
              | Throw _ => []
              end)%list.
Proof.
  destruct m as [es [a|e]]; simpl.
  - destruct (k a); reflexivity.
  - now rewrite app_nil_r.
Qed.

Lemma bind_snd {A B} (m : Emit A) (k : A -> Emit B) :
  snd (bind m k)
  = match snd m with
    | Normal a => snd (k a)
    | Throw e => Throw e
    end.
Proof.
  destruct m as [es [a|e]]; simpl; [|reflexivity].
  destruct (k a); reflexivity.
Qed.

Lemma forEach_completes_inv {A} (body : A -> Emit unit) (l : list A) :
  snd (forEach l body) = Normal tt ->
  forall x, In x l -> snd (body x) = Normal tt.
Proof.
  induction l as [|y l IH]; intros H x Hx; [contradiction|].
  simpl in H. rewrite bind_snd in H.
  destruct (snd (body y)) as [[]|e] eqn:B; [|discriminate].
  destruct Hx as [->|Hx]; [exact B | now apply IH].
Qed.

Lemma forEach_app {A} (body : A -> Emit unit) (l1 l2 : list A) :
  forEach (l1 ++ l2) body = (forEach l1 body ;;; forEach l2 body).
Proof.
  induction l1 as [|x l1 IH]; simpl.
  - destruct (forEach l2 body). reflexivity.
  - rewrite IH. destruct (body x) as [es [[]|e]]; simpl; [|reflexivity].
    destruct (forEach l1 body) as [es1 [[]|e1]]; simpl.
    + destruct (forEach l2 body). simpl. now rewrite app_assoc.
    + reflexivity.
Qed.

Lemma directive_isDirective (offset : Z) (l : list Event) :
  Forall (fun e => exists info it, e = directive info it offset) l ->
  Forall (fun e => isDirective e = true) l.
Proof.
  apply Forall_impl. intros e [info [it ->]]. reflexivity.
Qed.

Section Sequence.

Variable matchFrontMatter : string -> option RegExpMatchArray.
Variable parseMd parseHtml : string -> Unist.Node.
Variable parseYaml : string -> Yaml.Document.
Variable directives : list DirectiveInfo.
Variable doc : TextDocument.

(** [parse] in three steps: the events of each, and [endParse] when none
    throws. *)
Lemma parse_steps :
  parse matchFrontMatter parseMd parseHtml parseYaml directives doc
  = match (parseFrontMatter matchFrontMatter parseYaml directives doc
             (getText doc)) with
    | (F, Throw e) => (startParse doc :: F, Throw e)
    | (F, Normal (markdown, index)) =>
        match (forEach (Unist.visit (parseMd markdown) "html")
       (visitHtml parseHtml parseYaml directives doc index)) with
        | (C, Throw e) => ((startParse doc :: F ++ C)%list, Throw e)
        | (C, Normal _) =>
            ((startParse doc :: F ++ C ++ [endParse doc])%list, Normal tt)
        end
    end.
Proof.
  unfold parse.
  destruct (parseFrontMatter matchFrontMatter parseYaml directives doc
             (getText doc)) as [F [[markdown index']|e]];
    simpl; [|reflexivity].
  destruct (forEach (Unist.visit (parseMd markdown) "html")
       (visitHtml parseHtml parseYaml directives doc index'))
    as [C [[]|e]]; reflexivity.
Qed.

(** The front-matter step emits nothing, or the [frontMatter] event followed
    by [directive] events. *)
Lemma frontMatterStep_events :
  fst (parseFrontMatter matchFrontMatter parseYaml directives doc
             (getText doc)) = []
  \/ exists b r D, fst (parseFrontMatter matchFrontMatter parseYaml directives doc
             (getText doc)) = frontMatter b r :: D
     /\ Forall (fun e => isDirective e = true) D.
Proof.
  unfold parseFrontMatter.
  destruct (matchFrontMatter (getText doc)) as [m|]; [|now left].
  destruct (index m =? 0); [|now left].
  right. rewrite bind_fst. cbn [emit fst snd app].
  do 3 eexists. split; [reflexivity|].
  rewrite bind_fst. apply Forall_app. split.
  - eapply directive_isDirective, detectDirectives_offset.
  - destruct (snd _); constructor.
Qed.

(** The loop over the [html] nodes emits [comment] and [directive] events. *)
Lemma comments_events (markdown : string) (index : Z) :
  Forall (fun e => isComment e || isDirective e = true)
    (fst (forEach (Unist.visit (parseMd markdown) "html")
       (visitHtml parseHtml parseYaml directives doc index))).
Proof.
  apply forEach_fst_Forall. intros n _.
  unfold visitHtml. apply forEach_fst_Forall. intros c _.
  unfold visitComment. rewrite bind_fst. cbn [emit fst snd app].
  constructor; [reflexivity|].
  eapply Forall_impl; [|eapply directive_isDirective, detectDirectives_offset].
  intros e ->. apply orb_true_r.
Qed.

(** [parse] emits [endParse] exactly when it completes, and then as its
    last event. *)
Theorem endParse_iff_completes :
  let result :=
    parse matchFrontMatter parseMd parseHtml parseYaml directives doc in
  (In (endParse doc) (fst result) <-> snd result = Normal tt)
  /\ (snd result = Normal tt ->
      exists events, fst result = (events ++ [endParse doc])%list)
  /\ (forall e, snd result = Throw e ->
      Forall (fun ev => isEndParse ev = false) (fst result)).
Proof.
  intros result. subst result. rewrite parse_steps.
  assert (HF : Forall (fun ev => isEndParse ev = false)
                 (fst (parseFrontMatter matchFrontMatter parseYaml directives
                         doc (getText doc)))).
  { destruct frontMatterStep_events as [->|[b [r [D [-> HD]]]]];
      [constructor|].
    constructor; [reflexivity|].
    eapply Forall_impl; [|exact HD]. now intros [] H. }
  destruct (parseFrontMatter matchFrontMatter parseYaml directives doc
             (getText doc)) as [F [[markdown index']|e]];
    cbn [fst] in HF.
  - pose proof (comments_events markdown index') as HC.
    assert (HC' : Forall (fun ev => isEndParse ev = false)
                    (fst (forEach (Unist.visit (parseMd markdown) "html")
       (visitHtml parseHtml parseYaml directives doc index')))).
    { eapply Forall_impl; [|exact HC]. now intros [] H. }
    destruct (forEach (Unist.visit (parseMd markdown) "html")
       (visitHtml parseHtml parseYaml directives doc index'))
      as [C [[]|e]]; cbn [fst snd] in *.
    + split; [|split].
      * split; [reflexivity|]. intros _. right.
        rewrite app_assoc. apply in_or_app. right. now left.
      * intros _. exists (startParse doc :: F ++ C)%list.
        simpl. now rewrite app_assoc.
      * discriminate.
    + split; [|split].
      * split; [|discriminate]. intros [H|H]; [discriminate|].
        apply in_app_or in H as [H|H].
        -- rewrite Forall_forall in HF. now apply HF in H.
        -- rewrite Forall_forall in HC'. now apply HC' in H.
      * discriminate.
      * intros _ _. constructor; [reflexivity|].
        apply Forall_app. now split.
  - cbn [fst snd]. split; [|split].
    + split; [|discriminate]. intros [H|H]; [discriminate|].
      rewrite Forall_forall in HF. now apply HF in H.
    + discriminate.
    + intros _ _. now constructor.
Qed.

(** The order of the events: [startParse] first and only once; then the
    events of the front-matter, none or the [frontMatter] event followed by
    [directive] events; then those of the comments and [endParse], with no
    [frontMatter] event among them. *)
Theorem events_in_document_order :
  exists F C,
    fst (parse matchFrontMatter parseMd parseHtml parseYaml directives doc)
    = (startParse doc :: F ++ C)%list
    /\ (F = [] \/ exists b r D, F = frontMatter b r :: D
                                /\ Forall (fun e => isDirective e = true) D)
    /\ Forall (fun e => isComment e || isDirective e || isEndParse e = true) C.
Proof.
  rewrite parse_steps. pose proof frontMatterStep_events as HF.
  destruct (parseFrontMatter matchFrontMatter parseYaml directives doc
             (getText doc)) as [F [[markdown index']|e]];
    cbn [fst] in HF.
  - pose proof (comments_events markdown index') as HC.
    destruct (forEach (Unist.visit (parseMd markdown) "html")
       (visitHtml parseHtml parseYaml directives doc index'))
      as [C [[]|e]]; cbn [fst] in *.
    + exists F, (C ++ [endParse doc])%list. split; [reflexivity|].
      split; [exact HF|]. apply Forall_app. split.
      * eapply Forall_impl; [|exact HC]. intros a ->. reflexivity.
      * constructor; [|constructor]. apply orb_true_r.
    + exists F, C. split; [reflexivity|]. split; [exact HF|].
      eapply Forall_impl; [|exact HC]. intros a ->. reflexivity.
  - exists F, []. split; [now rewrite app_nil_r|].
    split; [exact HF | constructor].
Qed.

End Sequence.

(** A document on which [parse] completes and one on which it throws. *)
Lemma endParse_iff_completes_witness :
  (exists events,
      fst (Sample.run Sample.scenario)
      = (events ++ [endParse (mkTextDocument Sample.scenario)])%list)
  /\ Forall (fun ev => isEndParse ev = false)
       (fst (Sample.run Sample.emptyKey)).
Proof.
  split.
  - apply (endParse_iff_completes Sample.matchFrontMatter Sample.parseMd
             Sample.parseHtml Sample.parseYaml initialDirectives
             (mkTextDocument Sample.scenario)).
    vm_compute. reflexivity.
  - apply (proj2 (proj2 (endParse_iff_completes Sample.matchFrontMatter
             Sample.parseMd Sample.parseHtml Sample.parseYaml
             initialDirectives (mkTextDocument Sample.emptyKey)))
             TypeError).
    vm_compute. reflexivity.
Defined.

Lemma drop_append (a b : string) : JS.drop (String.length a) (a ++ b) = b.
Proof.
  induction a as [|x a IH]; simpl; [now destruct b | exact IH].
Qed.

(** [slice] at the length of a prefix gives the rest. *)
Lemma slice_append (a b : string) : JS.slice (a ++ b) (JS.length a) = b.
Proof.
  unfold JS.slice, JS.length.
  destruct (Z.ltb_spec (Z.of_nat (String.length a)) 0) as [H|_]; [lia|].
  rewrite length_append, Z.min_l by lia.
  rewrite Nat2Z.id. apply drop_append.
Qed.

Lemma filter_flat_map {A B} (p : B -> bool) (f : A -> list B) (l : list A) :
  filter p (flat_map f l) = flat_map (fun x => filter p (f x)) l.
Proof.
  induction l as [|x l IH]; simpl; [reflexivity|].
  now rewrite filter_app, IH.
Qed.

Lemma map_of_flat_map {A B C} (g : B -> C) (f : A -> list B) (l : list A) :
  map g (flat_map f l) = flat_map (fun x => map g (f x)) l.
Proof.
  induction l as [|x l IH]; simpl; [reflexivity|].
  now rewrite map_app, IH.
Qed.

Lemma flat_map_ext_in {A B} (f g : A -> list B) (l : list A) :
  (forall x, In x l -> f x = g x) -> flat_map f l = flat_map g l.
Proof.
  induction l as [|x l IH]; intros H; simpl; [reflexivity|].
  rewrite (H x (or_introl eq_refl)). f_equal. apply IH.
  intros y Hy. apply H. now right.
Qed.

Lemma forEach_completes_fst {A} (body : A -> Emit unit) (l : list A) :
  snd (forEach l body) = Normal tt ->
  fst (forEach l body) = flat_map (fun x => fst (body x)) l.
Proof.
  intros H. rewrite (forEach_normal body (fun x => fst (body x))).
  - reflexivity.
  - intros x Hx. pose proof (forEach_completes_inv body l H x Hx) as B.
    destruct (body x) as [es r]. simpl in B |- *. now rewrite B.
Qed.

Lemma filter_isComment_directives (l : list Event) :
  Forall (fun e => isDirective e = true) l -> filter isComment l = [].
Proof.
  induction 1 as [|e l He _ IH]; simpl; [reflexivity|].
  destruct e; try discriminate. exact IH.
Qed.

Section Documents.

Variable matchFrontMatter : string -> option RegExpMatchArray.
Variable parseMd parseHtml : string -> Unist.Node.
Variable parseYaml : string -> Yaml.Document.
Variable directives : list DirectiveInfo.
Variable doc : TextDocument.

(** A document without front-matter at its start whose [html] nodes hold no
    comment yields [startParse] and [endParse] and nothing else; the YAML
    parser is not consulted. *)
Theorem quiet_document :
  match matchFrontMatter (getText doc) with
  | Some m => index m <> 0
  | None => True
  end ->
  Forall (fun n => Unist.visit (parseHtml (Unist.value n)) "comment" = [])
    (Unist.visit (parseMd (getText doc)) "html") ->
  parse matchFrontMatter parseMd parseHtml parseYaml directives doc
  = ([startParse doc; endParse doc], Normal tt).
Proof.
  intros HM HC. unfold parse, parseFrontMatter.
  assert (E : forEach (Unist.visit (parseMd (getText doc)) "html")
                (visitHtml parseHtml parseYaml directives doc 0)
              = ([], Normal tt)).
  { rewrite (forEach_normal _ (fun _ => [])).
    - f_equal. clear. induction (Unist.visit _ _); simpl; auto.
    - intros n Hn. rewrite Forall_forall in HC. unfold visitHtml.
      now rewrite (HC n Hn). }
  destruct (matchFrontMatter (getText doc)) as [m|].
  - apply Z.eqb_neq in HM. rewrite HM. simpl. now rewrite E.
  - simpl. now rewrite E.
Qed.

(** A front-matter the regular expression finds further down the text is
    ignored: the parser behaves as if nothing had matched, and looks for
    comments in the whole text. *)
Theorem late_frontMatter_ignored (m : RegExpMatchArray) :
  matchFrontMatter (getText doc) = Some m ->
  index m <> 0 ->
  parse matchFrontMatter parseMd parseHtml parseYaml directives doc
  = parse (fun _ => None) parseMd parseHtml parseYaml directives doc.
Proof.
  intros HM HI. unfold parse, parseFrontMatter. rewrite HM.
  apply Z.eqb_neq in HI. now rewrite HI.
Qed.

(** A front-matter matched at the start of the text is reported whatever its
    body holds, before the body is parsed: the second event is the
    [frontMatter] event with the matched text and the range from 0 to the
    sum of the lengths of the three groups.  If the step completes, and the
    text is the three groups followed by [rest], the comments are looked for
    in [rest] and their offsets moved by that sum. *)
Theorem frontMatter_reported (m : RegExpMatchArray) (rest : string) :
  let index' :=
    JS.length (open m) + JS.length (body m) + JS.length (close m) in
  matchFrontMatter (getText doc) = Some m ->
  index m = 0 ->
  (exists events,
      fst (parse matchFrontMatter parseMd parseHtml parseYaml directives doc)
      = startParse doc
        :: frontMatter (outerBody m)
             (newRange (positionAt doc 0) (positionAt doc index'))
        :: events)
  /\ (getText doc = (open m ++ body m ++ close m ++ rest)%string ->
      forall step,
        snd (parseFrontMatter matchFrontMatter parseYaml directives doc
               (getText doc)) = Normal step ->
        step = (rest, index')).
Proof.
  intros index' HM HI. split.
  - unfold parse. rewrite bind_fst. cbn [emit fst snd app].
    rewrite bind_fst. unfold parseFrontMatter at 1. rewrite HM, HI.
    simpl Z.eqb. cbv iota. rewrite bind_fst. cbn [emit fst snd app].
    eexists. reflexivity.
  - intros HT step. unfold parseFrontMatter. rewrite HM, HI.
    simpl Z.eqb. cbv iota. rewrite !bind_snd. cbn [emit snd].
    destruct (snd (detectDirectives _ _ _ _ _)); [|discriminate].
    cbn [ret snd]. intros H. injection H as <-. f_equal.
    fold index'. rewrite HT at 1.
    replace index' with (JS.length (open m ++ body m ++ close m)).
    + rewrite <- !append_assoc. apply slice_append.
    + unfold index'. rewrite !length_Z_append. lia.
Qed.

(** When [parse] completes, its [comment] events are one for each comment
    the visitors reach in the text after the front-matter, in the order of
    the visits. *)
Theorem comments_in_order :
  snd (parse matchFrontMatter parseMd parseHtml parseYaml directives doc)
  = Normal tt ->
  exists markdown index',
    snd (parseFrontMatter matchFrontMatter parseYaml directives doc
           (getText doc)) = Normal (markdown, index')
    /\ filter isComment
         (fst (parse matchFrontMatter parseMd parseHtml parseYaml directives
                 doc))
       = map (fun nc => commentEvent doc index' (fst nc) (snd nc))
           (commentsOf parseMd parseHtml markdown).
Proof.
  rewrite parse_steps.
  pose proof (frontMatterStep_events matchFrontMatter parseYaml directives doc)
    as HF.
  destruct (parseFrontMatter matchFrontMatter parseYaml directives doc
              (getText doc)) as [F [[markdown index']|e]];
    [|discriminate].
  cbn [fst snd] in *.
  destruct (forEach (Unist.visit (parseMd markdown) "html")
              (visitHtml parseHtml parseYaml directives doc index'))
    as [C [[]|e]] eqn:EC; [|discriminate].
  intros _. exists markdown, index'. split; [reflexivity|].
  cbn [fst]. cbn [filter isComment]. rewrite !filter_app. cbn [filter isComment].
  rewrite app_nil_r.
  assert (EF : filter isComment F = []).
  { destruct HF as [->|[b [r [D [-> HD]]]]]; [reflexivity|].
    simpl. now apply filter_isComment_directives. }
  rewrite EF. cbn [app].
  assert (HC : snd (forEach (Unist.visit (parseMd markdown) "html")
                      (visitHtml parseHtml parseYaml directives doc index'))
               = Normal tt) by now rewrite EC.
  replace C with (fst (forEach (Unist.visit (parseMd markdown) "html")
                         (visitHtml parseHtml parseYaml directives doc index')))
    by now rewrite EC.
  rewrite (forEach_completes_fst _ _ HC), filter_flat_map.
  unfold commentsOf. rewrite map_of_flat_map.
  apply flat_map_ext_in. intros n Hn.
  pose proof (forEach_completes_inv _ _ HC n Hn) as Hn'.
  unfold visitHtml in Hn' |- *.
  rewrite (forEach_completes_fst _ _ Hn'), filter_flat_map.
  rewrite map_map. cbn [fst snd].
  clear. induction (Unist.visit (parseHtml (Unist.value n)) "comment")
    as [|c l IH]; simpl; [reflexivity|].
  rewrite IH. unfold visitComment at 1. rewrite bind_fst.
  cbn [emit fst snd app filter isComment].
  rewrite filter_isComment_directives; [reflexivity|].
  eapply directive_isDirective, detectDirectives_offset.
Qed.

End Documents.

Lemma quiet_document_witness :
  let text := ("# Title" ++ Sample.LF ++ Sample.LF ++ "<br>" ++ Sample.LF)%string in
  let parseMd := fun _ : string =>
    Unist.Parent "root"
      [ Unist.Parent "heading" [Sample.leaf "text" "Title" 2 7];
        Sample.leaf "html" "<br>" 9 13 ] in
  let parseHtml := fun _ : string =>
    Unist.Parent "root"
      [Unist.Parent "element"
         [ Unist.Parent "element" [];
           Unist.Parent "element" [Unist.Parent "element" []] ]] in
  parse (fun _ => None) parseMd parseHtml Sample.parseYaml initialDirectives
    (mkTextDocument text)
  = ([startParse (mkTextDocument text); endParse (mkTextDocument text)],
     Normal tt).
Proof.
  intros text parseMd parseHtml. apply quiet_document.
  - exact I.
  - vm_compute. repeat constructor.
Defined.

Lemma late_frontMatter_ignored_witness :
  let LF := Sample.LF in
  let text := ("text" ++ LF ++ LF ++ "---" ++ LF ++ "a: b" ++ LF ++ "---"
               ++ LF)%string in
  let found := fun _ : string =>
    Some (mkRegExpMatchArray 6 ("---" ++ LF ++ "a: b" ++ LF ++ "---")
            ("---" ++ LF) ("a: b" ++ LF) "---") in
  let parseMd := fun _ : string =>
    Unist.Parent "root"
      [ Unist.Parent "paragraph" [Sample.leaf "text" "text" 0 4];
        Unist.Parent "thematicBreak" [];
        Unist.Parent "heading" [Sample.leaf "text" "a: b" 10 14] ] in
  parse found parseMd Sample.parseHtml Sample.parseYaml initialDirectives
    (mkTextDocument text)
  = parse (fun _ => None) parseMd Sample.parseHtml Sample.parseYaml
      initialDirectives (mkTextDocument text).
Proof.
  intros LF text found parseMd.
  apply (late_frontMatter_ignored found parseMd Sample.parseHtml
           Sample.parseYaml initialDirectives (mkTextDocument text)
           (mkRegExpMatchArray 6 ("---" ++ LF ++ "a: b" ++ LF ++ "---")
              ("---" ++ LF) ("a: b" ++ LF) "---")).
  - reflexivity.
  - simpl. lia.
Defined.

(** The scenario of the specification: the front-matter is the first 19
    characters and the comments are looked for in the rest. *)
Lemma frontMatter_reported_witness :
  let doc := mkTextDocument Sample.scenario in
  let LF := Sample.LF in
  (exists events,
      fst (Sample.run Sample.scenario)
      = startParse doc
        :: frontMatter ("---" ++ LF ++ "theme: gaia" ++ LF ++ "---")
             (newRange (positionAt doc 0) (positionAt doc 19))
        :: events)
  /\ snd (parseFrontMatter Sample.matchFrontMatter Sample.parseYaml
            initialDirectives doc Sample.scenario)
     = Normal ((LF ++ "# Slide" ++ LF ++ LF ++ "<!-- paginate: true -->"
                ++ LF)%string, 19).
Proof.
  intros doc LF.
  destruct (frontMatter_reported Sample.matchFrontMatter Sample.parseMd
              Sample.parseHtml Sample.parseYaml initialDirectives doc
              (mkRegExpMatchArray 0
                 ("---" ++ LF ++ "theme: gaia" ++ LF ++ "---")
                 ("---" ++ LF) ("theme: gaia" ++ LF) "---")
              (LF ++ "# Slide" ++ LF ++ LF ++ "<!-- paginate: true -->"
               ++ LF)) as [H1 H2].
  - vm_compute. reflexivity.
  - reflexivity.
  - split; [exact H1|].
    destruct (snd (parseFrontMatter Sample.matchFrontMatter Sample.parseYaml
                     initialDirectives doc Sample.scenario))
      as [step|e] eqn:E.
    + f_equal. apply H2; [vm_compute; reflexivity | exact E].
    + vm_compute in E. discriminate.
Defined.

Lemma comments_in_order_witness :
  let doc := mkTextDocument Sample.scenario in
  exists markdown index',
    snd (parseFrontMatter Sample.matchFrontMatter Sample.parseYaml
           initialDirectives doc Sample.scenario) = Normal (markdown, index')
    /\ filter isComment (fst (Sample.run Sample.scenario))
       = map (fun nc => commentEvent doc index' (fst nc) (snd nc))
           (commentsOf Sample.parseMd Sample.parseHtml markdown).
Proof.
  intros doc.
  apply (comments_in_order Sample.matchFrontMatter Sample.parseMd
           Sample.parseHtml Sample.parseYaml initialDirectives doc).
  vm_compute. reflexivity.
Defined.

(** ** What the search returns *)

Lemma find_null_key (definedIn : DirectiveDefinedIn) (item : Yaml.Node)
  (directives : list DirectiveInfo) :
  Yaml.key item = None ->
  findDirective directives definedIn item
  = if somePermitted directives definedIn then Throw TypeError
    else Normal (None, None).
Proof.
  intros K. unfold findDirective, somePermitted.
  induction directives as [|d l IH]; simpl; [reflexivity|].
  unfold matchDirective at 1. rewrite K.
  destruct (includes (allowed d) definedIn); simpl; [reflexivity | exact IH].
Qed.

Lemma detectItem_null_key (directives : list DirectiveInfo) (offset : Z)
  (definedIn : DirectiveDefinedIn) (v : option Yaml.Node) :
  detectItem directives offset definedIn (Some (Yaml.Pair None v))
  = if somePermitted directives definedIn then ([], Throw TypeError)
    else ([directive None (Yaml.Pair None v) offset], Normal tt).
Proof.
  unfold detectItem. cbn [Yaml.isPAIR].
  rewrite (find_null_key definedIn (Yaml.Pair None v) directives eq_refl).
  destruct (somePermitted directives definedIn); reflexivity.
Qed.

(** A pair whose key is [null]: the search throws exactly when the registry
    holds a definition permitted in the context, whatever the names; with
    none, the pair is reported without a definition. *)
Theorem null_key_search (directives : list DirectiveInfo) (offset : Z)
  (definedIn : DirectiveDefinedIn) (v : option Yaml.Node) :
  detectItem directives offset definedIn (Some (Yaml.Pair None v))
  = if somePermitted directives definedIn then ([], Throw TypeError)
    else ([directive None (Yaml.Pair None v) offset], Normal tt).
Proof.
  apply detectItem_null_key.
Qed.

Lemma findDirective_found (directives : list DirectiveInfo)
  (definedIn : DirectiveDefinedIn) (item : Yaml.Node) (d : DirectiveInfo)
  (s : option bool) :
  findDirective directives definedIn item = Normal (Some d, s) ->
  In d directives /\ includes (allowed d) definedIn = true
  /\ exists k, Yaml.key item = Some k
       /\ ((s = None /\ Yaml.valueIs k (name d) = true)
           \/ (s = Some true /\ type d = Local
               /\ Yaml.valueIs k ("_" ++ name d) = true
               /\ Yaml.valueIs k (name d) = false)).
Proof.
  intros H. destruct (Yaml.key item) as [k|] eqn:K.
  - rewrite (findDirective_keyed directives definedIn item k K) in H.
    destruct (List.find (matchesKey definedIn k) directives) as [d'|] eqn:F;
      [|discriminate].
    injection H as -> <-. apply find_some in F as [I M].
    unfold matchesKey in M. apply andb_true_iff in M as [A M].
    split; [exact I|]. split; [exact A|]. exists k. split; [reflexivity|].
    unfold scopedOf. destruct (Yaml.valueIs k (name d)) eqn:V; [now left|].
    right. simpl in M. apply andb_true_iff in M as [L M].
    destruct (type d); [discriminate|]. auto.
  - rewrite (find_null_key definedIn item directives K) in H.
    destruct (somePermitted directives definedIn); discriminate.
Qed.

(** A definition the search finds is one of the registry, permitted in the
    context; [scoped] is left undefined when the key is its name, and set to
    true when the key is its name after an underscore, which happens for
    local definitions only. *)
Theorem found_is_permitted_match (directives : list DirectiveInfo)
  (definedIn : DirectiveDefinedIn) (item : Yaml.Node) (d : DirectiveInfo)
  (s : option bool) :
  findDirective directives definedIn item = Normal (Some d, s) ->
  In d directives /\ includes (allowed d) definedIn = true
  /\ exists k, Yaml.key item = Some k
       /\ ((s = None /\ Yaml.valueIs k (name d) = true)
           \/ (s = Some true /\ type d = Local
               /\ Yaml.valueIs k ("_" ++ name d) = true
               /\ Yaml.valueIs k (name d) = false)).
Proof.
  apply findDirective_found.
Qed.

Lemma found_is_permitted_match_witness :
  let header := builtin "header" directiveAlwaysAllowed Marpit Local
                  "https://marpit.marp.app/directives?id=header-and-footer" in
  In header initialDirectives /\ includes (allowed header) FrontMatter = true
  /\ exists k,
       Yaml.key (Yaml.Pair (Some (Yaml.Scalar "_header" (0, 7))) None) = Some k
       /\ ((Some true = None /\ Yaml.valueIs k (name header) = true)
           \/ (Some true = Some true /\ type header = Local
               /\ Yaml.valueIs k ("_" ++ name header) = true
               /\ Yaml.valueIs k (name header) = false)).
Proof.
  intros header.
  apply (found_is_permitted_match initialDirectives FrontMatter
           (Yaml.Pair (Some (Yaml.Scalar "_header" (0, 7))) None)
           header (Some true)).
  vm_compute. reflexivity.
Defined.

(** When the search finds nothing, [scoped] is undefined and no definition
    permitted in the context has the key as its name or, if it is local, as
    its name after an underscore. *)
Theorem not_found_matches_nothing (directives : list DirectiveInfo)
  (definedIn : DirectiveDefinedIn) (item : Yaml.Node) (s : option bool) :
  findDirective directives definedIn item = Normal (None, s) ->
  s = None
  /\ forall d, In d directives -> includes (allowed d) definedIn = true ->
       exists k, Yaml.key item = Some k
         /\ Yaml.valueIs k (name d) = false
         /\ (type d = Local -> Yaml.valueIs k ("_" ++ name d) = false).
Proof.
  intros H. destruct (Yaml.key item) as [k|] eqn:K.
  - rewrite (findDirective_keyed directives definedIn item k K) in H.
    destruct (List.find (matchesKey definedIn k) directives) as [d'|] eqn:F;
      [discriminate|].
    injection H as <-. split; [reflexivity|]. intros d I A.
    exists k. split; [reflexivity|].
    pose proof (find_none _ _ F d I) as M. unfold matchesKey in M.
    rewrite A in M. simpl in M. apply orb_false_iff in M as [M1 M2].
    split; [exact M1|]. intros L. rewrite L in M2. exact M2.
  - rewrite (find_null_key definedIn item directives K) in H.
    destruct (somePermitted directives definedIn) eqn:P; [discriminate|].
    injection H as <-. split; [reflexivity|]. intros d I A.
    unfold somePermitted in P.
    assert (existsb (fun d => includes (allowed d) definedIn) directives
            = true) by (apply existsb_exists; eauto).
    congruence.
Qed.

(** [marp] in a comment: the only definition of that name is not permitted
    there. *)
Lemma not_found_matches_nothing_witness :
  let theme := builtin "theme" directiveAlwaysAllowed Marpit Global
                 "https://marpit.marp.app/directives?id=theme" in
  exists k,
    Yaml.key (Yaml.Pair (Some (Yaml.Scalar "marp" (0, 4))) None) = Some k
    /\ Yaml.valueIs k (name theme) = false
    /\ (type theme = Local -> Yaml.valueIs k ("_" ++ name theme) = false).
Proof.
  intros theme.
  refine (proj2 (not_found_matches_nothing initialDirectives Comment
                   (Yaml.Pair (Some (Yaml.Scalar "marp" (0, 4))) None)
                   None _) theme _ _).
  - vm_compute. reflexivity.
  - simpl. tauto.
  - reflexivity.
Defined.

(** Every event of a block is a [directive] event with the offset of the
    block for an item that is a pair; the definition it carries, if any, has
    the name, type, permitted contexts, provider and details of a definition
    of the registry permitted in the context of the block, and its [scoped]
    is undefined or true, true for local definitions only.  This holds
    whether the block completes or throws. *)
Theorem block_events_reported (parseYaml : string -> Yaml.Document)
  (directives : list DirectiveInfo) (text : string) (offset : Z)
  (definedIn : DirectiveDefinedIn) :
  Forall (reported directives definedIn offset)
    (fst (detectDirectives parseYaml directives text offset definedIn)).
Proof.
  unfold detectDirectives.
  destruct (List.length (Yaml.errors (parseYaml text)) =? 0)%nat;
    [|constructor].
  destruct (Yaml.itemsOf (Yaml.contents (parseYaml text))) as [items|];
    [|constructor].
  apply forEach_fst_Forall. intros [n|] _; simpl; [|constructor].
  destruct (Yaml.isPAIR n) eqn:P; [|constructor].
  destruct (findDirective directives definedIn n) as [[[d|] s]|e] eqn:F;
    simpl; [| |constructor].
  - constructor; [|constructor]. simpl. split; [reflexivity|].
    split; [exact P|].
    apply findDirective_found in F as [I [A [k [_ H]]]].
    exists d. split; [exact I|]. split; [exact A|].
    repeat (split; [reflexivity|]).
    destruct H as [[-> _]|[-> [L _]]]; auto.
  - constructor; [|constructor]. simpl. auto.
Qed.

Lemma find_app_last {A} (p : A -> bool) (l : list A) (a : A) :
  List.find p l = None ->
  List.find p (l ++ [a]) = if p a then Some a else None.
Proof.
  induction l as [|x l IH]; simpl; [reflexivity|].
  destruct (p x); [discriminate | exact IH].
Qed.

(** A key that resolved to nothing resolves, once a definition has been
    pushed on the array, to that definition if the key matches it (its name,
    or for a local one its name after an underscore, in a context it
    permits), and to nothing otherwise. *)
Theorem pushed_definition_resolves (directives : list DirectiveInfo)
  (d : DirectiveInfo) (definedIn : DirectiveDefinedIn) (item k : Yaml.Node)
  (s : option bool) :
  Yaml.key item = Some k ->
  findDirective directives definedIn item = Normal (None, s) ->
  findDirective (fst (push directives d)) definedIn item
  = if matchesKey definedIn k d then Normal (Some d, scopedOf k d)
    else Normal (None, None).
Proof.
  intros K H. rewrite (findDirective_keyed directives _ _ k K) in H.
  rewrite (findDirective_keyed (fst (push directives d)) _ _ k K).
  destruct (List.find (matchesKey definedIn k) directives) eqn:F;
    [discriminate|].
  unfold push. cbn [fst]. rewrite (find_app_last _ _ d F).
  destruct (matchesKey definedIn k d); reflexivity.
Qed.

(** A local definition [note] pushed on the array of a new parser: the key
    [_note] resolves to it, scoped. *)
Lemma pushed_definition_resolves_witness :
  let note := {| name := "note"; allowed := [Comment];
                 providedBy := MarpVSCode; type := Local; details := None;
                 scoped := None |} in
  findDirective (fst (push initialDirectives note)) Comment
    (Yaml.Pair (Some (Yaml.Scalar "_note" (0, 5))) None)
  = Normal (Some note, Some true).
Proof.
  intros note.
  apply (pushed_definition_resolves initialDirectives note Comment
           (Yaml.Pair (Some (Yaml.Scalar "_note" (0, 5))) None)
           (Yaml.Scalar "_note" (0, 5)) None).
  - reflexivity.
  - vm_compute. reflexivity.
Defined.

(** A block whose items are, after entries with keys, a [null] entry or,
    the registry holding a definition permitted in the context, a pair
    with a [null] key: the pairs before it are reported, then the block
    throws, and nothing after it is looked at. *)
Theorem events_before_throw (parseYaml : string -> Yaml.Document)
  (directives : list DirectiveInfo) (text : string) (offset : Z)
  (definedIn : DirectiveDefinedIn)
  (before after : list (option Yaml.Node)) (bad : option Yaml.Node) :
  Yaml.errors (parseYaml text) = [] ->
  Yaml.itemsOf (Yaml.contents (parseYaml text))
  = Some (before ++ bad :: after)%list ->
  forallb keyed before = true ->
  bad = None
  \/ (somePermitted directives definedIn = true
      /\ exists v, bad = Some (Yaml.Pair None v)) ->
  detectDirectives parseYaml directives text offset definedIn
  = (eventsOf directives offset definedIn before, Throw TypeError).
Proof.
  intros E I K B. unfold detectDirectives. rewrite E, I. simpl.
  rewrite forEach_app.
  rewrite (forEach_normal _
             (fun item => eventsOf directives offset definedIn [item])).
  2:{ intros x Hx. apply detectItem_keyed.
      rewrite forallb_forall in K. now apply K. }
  assert (T : detectItem directives offset definedIn bad
              = ([], Throw TypeError)).
  { destruct B as [->|[P [v ->]]]; [reflexivity|].
    rewrite detectItem_null_key. now rewrite P. }
  simpl. rewrite T. simpl. rewrite app_nil_r. f_equal.
  unfold eventsOf. clear. induction before as [|x l IH]; simpl.
  - reflexivity.
  - rewrite app_nil_r. f_equal. exact IH.
Qed.

(** The block [theme: gaia] followed by a value without a key. *)
Lemma events_before_throw_witness :
  let theme := Sample.pair "theme" 0 5 "gaia" 7 11 in
  let bad := Some (Yaml.Pair None (Some (Yaml.Scalar "x" (14, 15)))) in
  let parseYaml := fun _ : string => Sample.mapping [theme; bad] in
  detectDirectives parseYaml initialDirectives
    ("theme: gaia" ++ Sample.LF ++ ": x") 4 FrontMatter
  = (eventsOf initialDirectives 4 FrontMatter [theme], Throw TypeError).
Proof.
  intros theme bad parseYaml.
  apply (events_before_throw parseYaml initialDirectives _ 4 FrontMatter
           [theme] [] bad).
  - reflexivity.
  - reflexivity.
  - reflexivity.
  - right. split; [reflexivity|]. eexists. reflexivity.
Defined.

(** ** What the two replacements leave *)

Lemma all_append (p : ascii -> bool) (a b : string) :
  JS.all p (a ++ b) = JS.all p a && JS.all p b.
Proof.
  induction a as [|x a IH]; simpl; [reflexivity|].
  now rewrite IH, andb_assoc.
Qed.

Lemma dropWhile_stops (p : ascii -> bool) (s : string) :
  option_map p (firstChar s) = Some false -> JS.dropWhile p s = s.
Proof.
  destruct s as [|c s]; simpl; [discriminate|].
  intros H. injection H as ->. reflexivity.
Qed.

(** A string [\s*-*] matches in full holds dashes and white space only. *)
Lemma matchesTrailing_padding (s : string) :
  JS.matchesTrailing s = true -> JS.all isPadding s = true.
Proof.
  unfold JS.matchesTrailing, isPadding.
  induction s as [|c s IH]; simpl; [reflexivity|].
  destruct (JS.isWhiteSpace c) eqn:W.
  - intros H. rewrite orb_true_r. simpl. now apply IH.
  - simpl. intros H. apply andb_true_iff in H as [D H]. rewrite D. simpl.
    clear IH W. induction s as [|x s IH]; simpl in *; [reflexivity|].
    apply andb_true_iff in H as [Dx H]. rewrite Dx. simpl. now apply IH.
Qed.

Lemma lastChar_split (s : string) (c : ascii) :
  lastChar s = Some c -> exists init, s = (init ++ String c "")%string.
Proof.
  induction s as [|x s IH]; simpl; [discriminate|].
  destruct s as [|y s].
  - intros H. injection H as ->. now exists EmptyString.
  - intros H. destruct (IH H) as [init E]. exists (String x init).
    simpl. now rewrite <- E.
Qed.

Lemma replaceLeading_padded (pre rest : string) :
  matchesLeading pre = true ->
  option_map isPadding (firstChar rest) = Some false ->
  JS.replaceLeading (pre ++ rest) = rest.
Proof.
  unfold matchesLeading, JS.replaceLeading. intros M F.
  assert (FD : option_map JS.isDash (firstChar rest) = Some false).
  { destruct rest as [|c r]; [discriminate|]. simpl in *.
    injection F as F. unfold isPadding in F.
    apply orb_false_iff in F as [-> _]. reflexivity. }
  assert (FW : option_map JS.isWhiteSpace (firstChar rest) = Some false).
  { destruct rest as [|c r]; [discriminate|]. simpl in *.
    injection F as F. unfold isPadding in F.
    apply orb_false_iff in F as [_ ->]. reflexivity. }
  destruct (dropWhile_split JS.isDash pre) as [d [E A]].
  set (w := JS.dropWhile JS.isDash pre) in *.
  rewrite E, append_assoc, (dropWhile_all _ d _ A).
  assert (EW : JS.dropWhile JS.isDash (w ++ rest) = (w ++ rest)%string).
  { pose proof (dropWhile_head JS.isDash pre) as H. fold w in H.
    destruct w as [|c w']; simpl.
    - now apply dropWhile_stops.
    - now rewrite H. }
  rewrite EW, (dropWhile_all _ w rest M). now apply dropWhile_stops.
Qed.

Lemma replaceTrailing_padded (init post : string) (c : ascii) :
  isPadding c = false ->
  JS.matchesTrailing post = true ->
  JS.replaceTrailing (init ++ String c post) = (init ++ String c "")%string.
Proof.
  intros P M.
  assert (N : forall a, JS.matchesTrailing (a ++ String c post) = false).
  { intros a. destruct (JS.matchesTrailing (a ++ String c post)) eqn:T;
      [|reflexivity].
    apply matchesTrailing_padding in T. rewrite all_append in T.
    simpl in T. rewrite P in T. simpl in T. now rewrite andb_false_r in T. }
  induction init as [|x init IH].
  - pose proof (N EmptyString) as N0. cbn [append] in N0.
    cbn [append JS.replaceTrailing]. rewrite N0. f_equal.
    destruct post; cbn [JS.replaceTrailing]; [reflexivity | now rewrite M].
  - pose proof (N (String x init)) as N1. cbn [append] in N1.
    cbn [append JS.replaceTrailing]. rewrite N1. now rewrite IH.
Qed.

(** Padding is undone: a text that neither starts nor ends with a dash or
    white space, put between a run of dashes followed by white space and a
    run of white space followed by dashes, is what the two replacements
    give back. *)
Theorem trim_recovers_core (pre core post : string) :
  matchesLeading pre = true ->
  JS.matchesTrailing post = true ->
  option_map isPadding (firstChar core) = Some false ->
  option_map isPadding (lastChar core) = Some false ->
  JS.replaceTrailing (JS.replaceLeading (pre ++ core ++ post)) = core.
Proof.
  intros Mpre Mpost F L.
  rewrite replaceLeading_padded; [|exact Mpre|].
  2:{ destruct core; [discriminate | exact F]. }
  destruct (lastChar core) as [c|] eqn:Lc; [|discriminate].
  injection L as L. destruct (lastChar_split core c Lc) as [init ->].
  rewrite append_assoc. cbn [append].
  now apply replaceTrailing_padded.
Qed.

Lemma trim_recovers_core_witness :
  JS.replaceTrailing (JS.replaceLeading ("--- " ++ "theme: gaia" ++ " ---"))
  = "theme: gaia".
Proof.
  apply trim_recovers_core; reflexivity.
Defined.

Lemma replaceTrailing_empty (s : string) :
  JS.replaceTrailing s = EmptyString -> JS.matchesTrailing s = true.
Proof.
  destruct s as [|c s]; [reflexivity|]. cbn [JS.replaceTrailing].
  destruct (JS.matchesTrailing (String c s)); [reflexivity | discriminate].
Qed.

Lemma replaceTrailing_last (s : string) (c : ascii) :
  lastChar (JS.replaceTrailing s) = Some c -> JS.isWhiteSpace c = false.
Proof.
  induction s as [|x s IH]; [discriminate|]. cbn [JS.replaceTrailing].
  destruct (JS.matchesTrailing (String x s)) eqn:T; [discriminate|].
  destruct (JS.replaceTrailing s) as [|y r] eqn:R.
  - simpl. intros H. injection H as <-.
    apply replaceTrailing_empty in R.
    destruct (JS.isWhiteSpace x) eqn:W; [|reflexivity].
    unfold JS.matchesTrailing in T, R. simpl in T. rewrite W in T.
    congruence.
  - exact IH.
Qed.

(** The text handed to the YAML parser for a comment neither starts nor
    ends with white space. *)
Theorem trimmed_has_no_outer_space (value : string) :
  let text := JS.replaceTrailing (JS.replaceLeading value) in
  option_map JS.isWhiteSpace (firstChar text) <> Some true
  /\ option_map JS.isWhiteSpace (lastChar text) <> Some true.
Proof.
  intros text. split.
  - destruct (replaceTrailing_split (JS.replaceLeading value))
      as [post [E _]]. fold text in E.
    pose proof (dropWhile_head JS.isWhiteSpace
                  (JS.dropWhile JS.isDash value)) as H.
    fold (JS.replaceLeading value) in H. rewrite E in H.
    destruct text as [|c t]; simpl in *; [discriminate|]. now rewrite H.
  - destruct (lastChar text) as [c|] eqn:L; [|discriminate].
    simpl. now rewrite (replaceTrailing_last _ c L).
Qed.

(** The text and the offset of a comment's directives stay within the value
    of the comment: what is removed on the left and the text that is kept
    have together at most the length of the value. *)
Theorem trimmed_text_inside_value (value : string) :
  let trimmedLeft := JS.replaceLeading value in
  let text := JS.replaceTrailing trimmedLeft in
  0 <= JS.length value - JS.length trimmedLeft
  /\ JS.length value - JS.length trimmedLeft + JS.length text
     <= JS.length value.
Proof.
  intros trimmedLeft text.
  destruct (replaceLeading_split value) as [pre [E1 _]].
  destruct (replaceTrailing_split trimmedLeft) as [post [E2 _]].
  fold trimmedLeft in E1. fold text in E2.
  assert (L1 : JS.length value = JS.length pre + JS.length trimmedLeft)
    by (rewrite E1 at 1; apply length_Z_append).
  assert (L2 : JS.length trimmedLeft = JS.length text + JS.length post)
    by (rewrite E2 at 1; apply length_Z_append).
  unfold JS.length in *. lia.
Qed.

(** ** The built-in registry and the specification's rules *)

Lemma underscore_free_agrees (directives : list DirectiveInfo)
  (context : DirectiveDefinedIn) (rawKey : string) (range : Z * Z)
  (v : option Yaml.Node) :
  Forall (fun d => prefix "_" (name d) = false) directives ->
  exists found,
    findDirective directives context
      (Yaml.Pair (Some (Yaml.Scalar rawKey range)) v) = Normal found
    /\ Spec.ofFound found = Spec.lookupScoped directives rawKey context.
Proof.
  intros U. rewrite Forall_forall in U. eexists. split.
  { apply findDirective_keyed with (k := Yaml.Scalar rawKey range).
    reflexivity. }
  rewrite (find_ext_in _ _ _
             (fun d _ => matchesKey_rules rawKey range context d)).
  unfold Spec.lookupScoped.
  destruct (prefix "_" rawKey) eqn:P.
  - assert (R1 : forall d, In d directives ->
                   Spec.rule1 rawKey context d = false).
    { intros d I. unfold Spec.rule1.
      destruct (String.eqb_spec rawKey (name d)) as [->|]; [|reflexivity].
      rewrite (U d I) in P. discriminate. }
    rewrite (find_absent _ _ R1).
    rewrite (find_ext_in _ (Spec.rule2 rawKey context) directives).
    2:{ intros d I. now rewrite (R1 d I). }
    destruct (List.find (Spec.rule2 rawKey context) directives) as [d|] eqn:F;
      [|reflexivity].
    apply find_some in F as [I _]. unfold scopedOf. cbn [Yaml.valueIs].
    specialize (R1 d I). unfold Spec.rule1 in R1.
    destruct (rawKey =? name d)%string eqn:E; [|reflexivity].
    apply String.eqb_eq in E. subst. rewrite (U d I) in P. discriminate.
  - assert (R2 : forall d, In d directives ->
                   Spec.rule2 rawKey context d = false).
    { intros d _. unfold Spec.rule2. destruct rawKey as [|c r]; [reflexivity|].
      simpl in P. destruct (Ascii.ascii_dec "_"%char c) as [<-|N].
      - destruct r; discriminate.
      - destruct c as [[] [] [] [] [] [] [] []]; try reflexivity.
        now contradiction N. }
    rewrite (find_ext_in _ (Spec.rule1 rawKey context) directives).
    2:{ intros d I. rewrite (R2 d I). apply orb_false_r. }
    destruct (List.find (Spec.rule1 rawKey context) directives) as [d|] eqn:F.
    + apply find_some in F as [_ R]. unfold Spec.rule1 in R.
      apply andb_true_iff in R as [E _]. unfold scopedOf.
      cbn [Yaml.valueIs]. now rewrite E.
    + now rewrite (find_absent _ _ R2).
Qed.

(** The built-in registry has 19 definitions with distinct names, none
    beginning with an underscore; so for every key and either context the
    search over it finds what [lookupScoped] of the specification gives, the
    exact name first. *)
Theorem builtin_resolution :
  List.length builtinDirectives = 19%nat
  /\ NoDup (map name builtinDirectives)
  /\ Forall (fun d => prefix "_" (name d) = false) builtinDirectives
  /\ forall context rawKey range v,
       exists found,
         findDirective builtinDirectives context
           (Yaml.Pair (Some (Yaml.Scalar rawKey range)) v) = Normal found
         /\ Spec.ofFound found
            = Spec.lookupScoped builtinDirectives rawKey context.
Proof.
  assert (U : Forall (fun d => prefix "_" (name d) = false)
                builtinDirectives)
    by (unfold builtinDirectives; repeat constructor).
  split; [reflexivity|]. split; [|split; [exact U|]].
  - repeat (constructor; [simpl; intuition discriminate|]). constructor.
  - intros. now apply underscore_free_agrees.
Qed.

(** Of [ - x - ] the replacements leave [- x -]. *)
Lemma trimmed_has_no_outer_space_witness :
  option_map JS.isWhiteSpace (firstChar "- x -") <> Some true
  /\ option_map JS.isWhiteSpace (lastChar "- x -") <> Some true.
Proof.
  exact (trimmed_has_no_outer_space " - x - ").
Defined.
